(** * strong-pm: the [sl-pm] startup script, [bin/sl-pm.js]

    A shallow embedding of the command-line entry point of the process
    manager: option parsing, the persistence-backend gate, the construction
    of the server, and the two event handlers the script installs. *)

From Stdlib Require Import ZArith Lia Ascii String List.
From stdpp Require Import base option list strings gmap.

Import ListNotations.
Local Open Scope string_scope.
Local Open Scope Z_scope.

(** ** JavaScript values *)

(** The built-in objects a property read on an object literal can reach
    through its prototype. *)
Inductive builtin :=
| Object_function                       (* the global [Object] constructor *)
| Object_prototype                      (* [Object.prototype] itself *)
| Object_prototype_method (name : string).

(** The two modules loaded into [DRIVERS] (lines 23-26). *)
Inductive driver_module :=
| DirectDriver                          (* require('../lib/drivers/direct') *)
| ContainerDriver.                      (* require('../lib/drivers/docker') *)

(** The values the script's variables hold. Numbers are the integers the
    script writes or reads back; [JNaN] is what [Number] gives on a string
    that is not a number. *)
Inductive jsval :=
| JUndefined
| JNull
| JNaN
| JNum (n : Z)
| JStr (s : string)
| JModule (m : driver_module)
| JBuiltin (b : builtin).

#[global] Instance builtin_eq_dec : EqDecision builtin.
Proof. solve_decision. Defined.
#[global] Instance driver_module_eq_dec : EqDecision driver_module.
Proof. solve_decision. Defined.
#[global] Instance jsval_eq_dec : EqDecision jsval.
Proof. solve_decision. Defined.

(** [v == null] (line 111): loose equality with [null] holds of [null] and
    [undefined] only. *)
Definition loose_eq_null (v : jsval) : bool :=
  match v with
  | JUndefined | JNull => true
  | _ => false
  end.

(** Truthiness, as [||], [?:] and [if] use it. *)
Definition truthy (v : jsval) : bool :=
  match v with
  | JUndefined | JNull | JNaN => false
  | JNum n => negb (n =? 0)
  | JStr s => negb (String.eqb s EmptyString)
  | JModule _ | JBuiltin _ => true
  end.

(** ** Objects used as maps *)

(** The properties of [Object.prototype]. [__proto__] is its accessor; read
    on an object literal it returns that literal's prototype, which is
    [Object.prototype]. *)
Definition ObjectPrototype : gmap string jsval :=
  list_to_map
    [ ("constructor", JBuiltin Object_function);
      ("__proto__", JBuiltin Object_prototype);
      ("__defineGetter__", JBuiltin (Object_prototype_method "__defineGetter__"));
      ("__defineSetter__", JBuiltin (Object_prototype_method "__defineSetter__"));
      ("__lookupGetter__", JBuiltin (Object_prototype_method "__lookupGetter__"));
      ("__lookupSetter__", JBuiltin (Object_prototype_method "__lookupSetter__"));
      ("hasOwnProperty", JBuiltin (Object_prototype_method "hasOwnProperty"));
      ("isPrototypeOf", JBuiltin (Object_prototype_method "isPrototypeOf"));
      ("propertyIsEnumerable", JBuiltin (Object_prototype_method "propertyIsEnumerable"));
      ("toLocaleString", JBuiltin (Object_prototype_method "toLocaleString"));
      ("toString", JBuiltin (Object_prototype_method "toString"));
      ("valueOf", JBuiltin (Object_prototype_method "valueOf")) ].

(** [obj[key]] on an object written as a literal [{...}]: the own property
    when there is one, else the property inherited from [Object.prototype],
    else [undefined]. A read never raises. *)
Definition js_get (own : gmap string jsval) (key : string) : jsval :=
  match own !! key with
  | Some v => v
  | None => default JUndefined (ObjectPrototype !! key)
  end.

(** [var DRIVERS = { direct: ..., docker: ... }] (lines 23-26). *)
Definition DRIVERS : gmap string jsval :=
  {[ "direct" := JModule DirectDriver; "docker" := JModule ContainerDriver ]}.

(** ** The host: library functions the script calls

    These come from Node and from the packages the script requires; the
    script is verified for every implementation of them. *)
Record Host := {
  toLowerCase : string -> string;        (* String.prototype.toLowerCase *)
  path_basename : string -> string;      (* path.basename *)
  path_resolve : string -> string;       (* path.resolve, one argument *)
  path_join : string -> string -> string;(* path.join, two arguments *)
  Number_ : string -> jsval;             (* Number(s) on a string *)
  home : string -> string;               (* require('userhome') *)
  USAGE : string -> string;              (* g.t('sl-pm.txt'), %MAIN% replaced, trimmed *)
  versionApi : string;                   (* strong-mesh-models/package.json apiVersion *)
  versionPm : string;                    (* ../package.json version *)
}.

(** [driver = DRIVERS[option.optarg.toLowerCase()]] (line 81), for an
    [optarg] that is a string. *)
Definition lookup_driver (H : Host) (optarg : string) : jsval :=
  js_get DRIVERS (toLowerCase H optarg).

(** A host for running the script on concrete inputs: [toLowerCase] on the
    letters A-Z, paths joined with a slash, absolute paths left as they
    are. *)
Definition ascii_lower (c : ascii) : ascii :=
  let n := nat_of_ascii c in
  if ((65 <=? n)%nat && (n <=? 90)%nat)%bool then ascii_of_nat (n + 32) else c.

Fixpoint string_map (f : ascii -> ascii) (s : string) : string :=
  match s with
  | EmptyString => EmptyString
  | String c s' => String (f c) (string_map f s')
  end.

Fixpoint last_segment (acc : string) (s : string) : string :=
  match s with
  | EmptyString => acc
  | String c s' =>
      if Ascii.eqb c "/" then last_segment EmptyString s'
      else last_segment (acc ++ String c EmptyString) s'
  end.

Definition posix_host : Host := {|
  toLowerCase := string_map ascii_lower;
  path_basename := last_segment EmptyString;
  path_resolve p := p;
  path_join a b := a ++ "/" ++ b;
  Number_ _ := JNaN;
  home p := "/root/" ++ p;
  USAGE cmd := "usage: " ++ cmd ++ " [options]";
  versionApi := "6.0.0";
  versionPm := "5.0.0";
|}.

(** ** Observable effects *)

(** What [new Server({...})] receives (lines 144-152). *)
Module Server.
Record options := {
  Driver : jsval;
  baseDir : jsval;
  basePort : jsval;
  cmdName : string;
  listenPort : jsval;
  dbDriver : string;
}.
End Server.

(** The calls the script makes on its collaborators, in the order it makes
    them. [g_error] and [g_log] keep the format and its arguments apart.
    [g.setRootDir] (line 61) only tells the message catalogue where its
    files are and is left out; [mkdirp] and [process.chdir] are taken to
    return. *)
Inductive event :=
| console_log (s : string)
| g_error (fmt : string) (args : list jsval)
| g_log (fmt : string) (args : list jsval)
| mkdirp (dir : string)
| process_chdir (dir : string)
| fs_stat (p : string)
| upgradeDb (baseDir : jsval) (memoryDbLocation : string) (dryRun : bool)
| new_Server (o : Server.options)
| app_on (name : string)
| app_start.

(** How a piece of the script ends: it runs to its end, it calls
    [process.exit], or it raises an exception nothing catches. *)
Inductive res (A : Type) :=
| Done (a : A)
| Exited (code : Z)
| Uncaught (err : string).
Arguments Done {A} a.
Arguments Exited {A} code.
Arguments Uncaught {A} err.

(** A computation: the events it produced and how it ended. *)
Definition Proc (A : Type) : Type := (list event * res A)%type.

#[global] Instance Proc_ret : MRet Proc := λ A a, ([], Done a).

#[global] Instance Proc_bind : MBind Proc := λ A B f m,
  match m with
  | (t, Done a) => let '(t', r) := f a in ((t ++ t')%list, r)
  | (t, Exited c) => (t, Exited c)
  | (t, Uncaught e) => (t, Uncaught e)
  end.

Definition emit (e : event) : Proc unit := ([e], Done tt).
Definition process_exit {A} (code : Z) : Proc A := ([], Exited code).
Definition throw {A} (err : string) : Proc A := ([], Uncaught err).

Definition trace {A} (m : Proc A) : list event := fst m.
Definition outcome {A} (m : Proc A) : res A := snd m.

(** ** The option parser's results *)

(** One return value of [parser.getopt()], other than [undefined]. A field
    the parser leaves out reads as [undefined]. *)
Record getopt_result := {
  r_option : string;
  r_optarg : jsval;
  r_optopt : jsval;
}.

(** How the sequence of [getopt()] calls ends: with [undefined], after
    which [optind()] is read, or with an exception of the parser. *)
Inductive parse_end :=
| EndOfOptions (optind : nat)
| ParserThrew (err : string).

(** What the parser of [posix-getopt] does on [process.argv] with the
    option string of lines 41-52: the values the successive calls of
    [getopt()] return, and what the call after the last of them does. The
    loop of lines 64-102 is the parser's only client, and it stops asking
    once it has left; the script is verified for every such behaviour. *)
Record parse := {
  results : list getopt_result;
  ending : parse_end;
}.

(** ** The script's variables *)

(** A handler the script registers on an event emitter. *)
Inductive callback :=
| on_disconnect                         (* lines 10-12 *)
| on_listening.                         (* lines 154-166 *)

Record state := {
  cmd : string;                         (* $0 *)
  base : jsval;
  listen : jsval;
  driver : jsval;
  basePort : jsval;
  dbDriver : string;
  penv : gmap string string;            (* process.env *)
  process_listeners : list (string * callback);
  app_listeners : list (string * callback);
}.

Definition set_base (v : jsval) (s : state) : state :=
  {| cmd := cmd s; base := v; listen := listen s; driver := driver s;
     basePort := basePort s; dbDriver := dbDriver s; penv := penv s;
     process_listeners := process_listeners s; app_listeners := app_listeners s |}.
Definition set_listen (v : jsval) (s : state) : state :=
  {| cmd := cmd s; base := base s; listen := v; driver := driver s;
     basePort := basePort s; dbDriver := dbDriver s; penv := penv s;
     process_listeners := process_listeners s; app_listeners := app_listeners s |}.
Definition set_driver (v : jsval) (s : state) : state :=
  {| cmd := cmd s; base := base s; listen := listen s; driver := v;
     basePort := basePort s; dbDriver := dbDriver s; penv := penv s;
     process_listeners := process_listeners s; app_listeners := app_listeners s |}.
Definition set_basePort (v : jsval) (s : state) : state :=
  {| cmd := cmd s; base := base s; listen := listen s; driver := driver s;
     basePort := v; dbDriver := dbDriver s; penv := penv s;
     process_listeners := process_listeners s; app_listeners := app_listeners s |}.
Definition set_dbDriver (v : string) (s : state) : state :=
  {| cmd := cmd s; base := base s; listen := listen s; driver := driver s;
     basePort := basePort s; dbDriver := v; penv := penv s;
     process_listeners := process_listeners s; app_listeners := app_listeners s |}.
Definition set_env (k v : string) (s : state) : state :=
  {| cmd := cmd s; base := base s; listen := listen s; driver := driver s;
     basePort := basePort s; dbDriver := dbDriver s; penv := <[k:=v]> (penv s);
     process_listeners := process_listeners s; app_listeners := app_listeners s |}.
Definition set_app_listeners (ls : list (string * callback)) (s : state) : state :=
  {| cmd := cmd s; base := base s; listen := listen s; driver := driver s;
     basePort := basePort s; dbDriver := dbDriver s; penv := penv s;
     process_listeners := process_listeners s; app_listeners := ls |}.

(** The process the script runs in. [connected] says whether the parent
    opened an IPC channel to it. *)
Record process := {
  argv : list string;
  env : gmap string string;
  pid : Z;
  connected : bool;
}.

(** An environment variable read in a condition: unset and empty are both
    falsy. *)
Definition env_truthy (e : gmap string string) (k : string) : option string :=
  match e !! k with
  | Some v => if String.eqb v EmptyString then None else Some v
  | None => None
  end.

(** What the script waits for once its current turn has ended, with the
    variables the callback closes over. *)
Inductive pending :=
| stat_memoryDb (baseDir : jsval) (memoryDbLocation : string)  (* line 212 *)
| upgrading (baseDir : jsval) (memoryDbLocation : string) (dryRun : bool)  (* line 214 *)
| stat_sqliteDb (sqliteDbPath : string)                        (* line 130 *)
| serving.                                                     (* line 168 *)

(** The running process between two turns of the event loop. [channel]
    says whether the IPC channel to the parent is open. *)
Record proc := {
  st : state;
  pend : pending;
  channel : bool;
}.

(** The file system as [fs.stat] sees it, and the migration routine of
    [lib/upgrade-db], a parameter here: called as
    [upgradeDb(baseDir, memoryDbLocation, dryRun, callback)], it may change
    the files, and it calls back once, with no error ([None]) or with an
    error that has a message. *)
Record World := {
  files : gset string;
  migrate : jsval -> string -> bool -> gset string -> option string * gset string;
}.

Definition with_files (fs : gset string) (w : World) : World :=
  {| files := fs; migrate := migrate w |}.

(** ** Concrete inputs *)

(** A result for the option letter [c] with argument [a]. *)
Definition opt (c : string) (a : jsval) : getopt_result :=
  {| r_option := c; r_optarg := a; r_optopt := JUndefined |}.

(** The parser's result for an option [name] it does not know. *)
Definition invalid_option (name : string) : getopt_result :=
  {| r_option := "?"; r_optarg := JUndefined; r_optopt := JStr name |}.

(** [sl-pm args], started by a parent that keeps an IPC channel. *)
Definition sl_pm (args : list string) : process :=
  {| argv := "node" :: "/usr/local/bin/sl-pm" :: args;
     env := ∅; pid := 4242; connected := true |}.

(** A migration that succeeds and removes the legacy file. *)
Definition migration_ok (baseDir : jsval) (loc : string) (dryRun : bool)
    (fs : gset string) : option string * gset string :=
  (None, fs ∖ {[loc]}).

(** A migration that fails and changes nothing. *)
Definition migration_fails (baseDir : jsval) (loc : string) (dryRun : bool)
    (fs : gset string) : option string * gset string :=
  (Some "cannot read", fs).

Definition world (fs : list string) : World :=
  {| files := list_to_set fs; migrate := migration_ok |}.

(** The variables after the option loop of [sl-pm -b /srv/pm]. *)
Definition in_srv_pm : state := {|
  cmd := "sl-pm";
  base := JStr "/srv/pm";
  listen := JNum 8701;
  driver := JModule DirectDriver;
  basePort := JNum 3000;
  dbDriver := "sqlite3";
  penv := ∅;
  process_listeners := [("disconnect", on_disconnect)];
  app_listeners := [];
|}.

Section Script.

Context (H : Host) (pr : process).

(** A path argument of [path.resolve] or [path.join]: anything but a string
    raises a [TypeError]. *)
Definition as_path (v : jsval) : Proc string :=
  match v with
  | JStr p => mret p
  | _ => throw "TypeError"
  end.

(** *** Option parsing, lines 64-102 *)

(** The body of the [switch] for one result of [getopt()]. *)
Definition switch (o : getopt_result) (s : state) : Proc state :=
  let c := r_option o in
  if String.eqb c "v" then
    emit (console_log (versionPm H)) ;; process_exit 0
  else if String.eqb c "h" then
    emit (console_log (USAGE H (cmd s))) ;; process_exit 0
  else if String.eqb c "b" then
    mret (set_base (r_optarg o) s)
  else if String.eqb c "c" then
    emit (g_error "Warning: ignoring config file: %s" [r_optarg o]) ;; mret s
  else if String.eqb c "d" then
    match r_optarg o with
    | JStr name => mret (set_driver (lookup_driver H name) s)
    | _ => throw "TypeError"
    end
  else if String.eqb c "l" then
    mret (set_listen (r_optarg o) s)
  else if String.eqb c "N" then
    mret s
  else if String.eqb c "s" then
    mret (set_env "STRONGLOOP_PM_SKIP_DEFAULT_INSTALL" "true" s)
  else if String.eqb c "P" then
    mret (set_basePort (r_optarg o) s)
  else if String.eqb c "M" then
    mret (set_dbDriver "memory" s)
  else
    emit (g_error "Invalid usage (near option '%s'), try `{{%s --help}}`."
            [r_optopt o; JStr (cmd s)]) ;;
    process_exit 1.

(** [while ((option = parser.getopt()) !== undefined) switch ...], over the
    results the parser gives one after the other. *)
Fixpoint option_loop (rs : list getopt_result) (s : state) : Proc state :=
  match rs with
  | [] => mret s
  | o :: rs' => s' ← switch o s; option_loop rs' s'
  end.

(** *** Starting the server, lines 143-180 *)

(** [app] is a new emitter: ['listening'] is its only listener.
    [stopWhenDone] (line 179) has an empty body. *)
Definition startPm (s : state) (ch : bool) : Proc proc :=
  emit (new_Server {|
    Server.Driver := driver s;
    Server.baseDir := base s;
    Server.basePort := basePort s;
    Server.cmdName := cmd s;
    Server.listenPort := listen s;
    Server.dbDriver := dbDriver s;
  |}) ;;
  emit (app_on "listening") ;;
  emit app_start ;;
  mret {| st := set_app_listeners [("listening", on_listening)] s;
          pend := serving; channel := ch |}.

(** The handler of ['listening'], lines 154-166; [port] is
    [listenAddr.port]. *)
Definition listening_handler (s : state) (port : jsval) : Proc unit :=
  emit (g_log "%s(%d): {{StrongLoop PM}} v%s (API v%s) on port `%s`"
          [JStr (cmd s); JNum (pid pr); JStr (versionPm H);
           JStr (versionApi H); port]) ;;
  emit (g_log "%s(%d): Base folder `%s`"
          [JStr (cmd s); JNum (pid pr); base s]) ;;
  emit (g_log "%s(%d): Applications on port `%d + service ID`"
          [JStr (cmd s); JNum (pid pr); basePort s]).

(** *** The backend gate, lines 120-141 and 209-216 *)

(** The callback given to [checkAndUpgradeDb], lines 121-127; [err] is the
    message of the error, when there is one. *)
Definition upgraded (s : state) (ch : bool) (err : option string) : Proc proc :=
  match err with
  | Some message =>
      emit (g_error "%s(%d) %s" [JStr (cmd s); JNum (pid pr); JStr message]) ;;
      process_exit 1
  | None => startPm s ch
  end.

(** The callback of [fs.stat(memoryDbLocation, ...)], lines 212-215; [err]
    says whether [fs.stat] reported an error. *)
Definition memoryDb_stat_done (s : state) (ch : bool)
    (baseDir : jsval) (memoryDbLocation : string) (err : bool) : Proc proc :=
  if err then upgraded s ch None
  else
    emit (upgradeDb baseDir memoryDbLocation false) ;;
    mret {| st := s; pend := upgrading baseDir memoryDbLocation false; channel := ch |}.

(** [checkAndUpgradeDb(baseDir, callback)], lines 209-216, up to the call
    of [fs.stat]. *)
Definition checkAndUpgradeDb (s : state) (ch : bool) (baseDir : jsval) : Proc proc :=
  memoryDbLocation ←
    match env_truthy (penv s) "STRONGLOOP_MESH_DB" with
    | Some p => mret p
    | None => b ← as_path baseDir; mret (path_join H b "strong-pm.json")
    end;
  emit (fs_stat memoryDbLocation) ;;
  mret {| st := s; pend := stat_memoryDb baseDir memoryDbLocation; channel := ch |}.

(** The callback of [fs.stat(sqliteDbPath, ...)], lines 130-140. *)
Definition sqliteDb_stat_done (s : state) (ch : bool)
    (sqliteDbPath : string) (err : bool) : Proc proc :=
  if negb err then
    emit (g_error
      "%s(%d) {{SQLite3}} database found at %s. Please delete thisfile if you wish to use the {{JSON}} file database."
      [JStr (cmd s); JNum (pid pr); JStr sqliteDbPath]) ;;
    process_exit 1
  else startPm s ch.

(** Lines 120-141, up to the first [fs.stat]. *)
Definition gate (s : state) (ch : bool) : Proc proc :=
  if String.eqb (dbDriver s) "sqlite3" then
    checkAndUpgradeDb s ch (base s)
  else
    b ← as_path (base s);
    let sqliteDbPath := path_join H b "strong-mesh.db" in
    emit (fs_stat sqliteDbPath) ;;
    mret {| st := s; pend := stat_sqliteDb sqliteDbPath; channel := ch |}.

(** *** The top level *)

(** Lines 104-141: what follows the option loop, [optind] being
    [parser.optind()]. *)
Definition after_options (optind : nat) (s : state) : Proc proc :=
  b ← as_path (base s);
  let s := set_base (JStr (path_resolve H b)) s in
  (if negb (Nat.eqb optind (length (argv pr))) then
     emit (g_error "Invalid usage (extra arguments), try `{{%s --help}}`."
             [JStr (cmd s)]) ;;
     process_exit 1
   else mret tt) ;;
  (if loose_eq_null (listen s) then
     emit (g_error "Listen port was not specified, try `{{%s --help}}`."
             [JStr (cmd s)]) ;;
     process_exit 1
   else mret tt) ;;
  emit (mkdirp (path_resolve H b)) ;;
  emit (process_chdir (path_resolve H b)) ;;
  gate s (connected pr).

(** The variables as lines 10-12, 39 and 55-59 leave them. *)
Definition initial_state (cmd0 : string) : state := {|
  cmd := cmd0;
  base := JStr (home H ".strong-pm");
  listen := JNum 8701;
  driver := js_get DRIVERS "direct";
  basePort :=
    (let n := match env pr !! "STRONGLOOP_BASEPORT" with
              | Some v => Number_ H v
              | None => JNaN
              end in
     if truthy n then n else JNum 3000);
  dbDriver := "sqlite3";
  penv := env pr;
  process_listeners := [("disconnect", on_disconnect)];
  app_listeners := [];
|}.

(** [$0], line 39. *)
Definition command_name : Proc string :=
  match env_truthy (env pr) "CMD" with
  | Some c => mret c
  | None =>
      match argv pr !! 1%nat with
      | Some script => mret (path_basename H script)
      | None => throw "TypeError"
      end
  end.

(** Lines 40-141: the module body once [$0] is known, for a parser that
    behaves as [ps] on [process.argv]. *)
Definition from_line_40 (ps : parse) (cmd0 : string) : Proc proc :=
  s ← option_loop (results ps) (initial_state cmd0);
  match ending ps with
  | ParserThrew err => throw err
  | EndOfOptions optind => after_options optind s
  end.

(** The first turn: the whole module body. *)
Definition main (ps : parse) : Proc proc :=
  cmd0 ← command_name;
  from_line_40 ps cmd0.

(** *** Later turns *)

(** What the event loop can deliver to the script. *)
Inductive input :=
| stat_done (err : bool)
| upgrade_done (err : option string)
| app_emits (name : string) (port : jsval)
| parent_disconnects.

Definition run_callback (s : state) (cb : callback) (arg : jsval) : Proc unit :=
  match cb with
  | on_disconnect => process_exit 2
  | on_listening => listening_handler s arg
  end.

(** [emitter.emit(name, arg)]: the listeners registered under [name], in
    the order of their registration. *)
Fixpoint dispatch (s : state) (ls : list (string * callback))
    (name : string) (arg : jsval) : Proc unit :=
  match ls with
  | [] => mret tt
  | (n, cb) :: ls' =>
      (if String.eqb n name then run_callback s cb arg else mret tt) ;;
      dispatch s ls' name arg
  end.

(** One turn of the event loop. [None]: the input cannot occur in this
    state. The parent's disconnection is signalled only on an open
    channel. *)
Definition turn (p : proc) (i : input) : option (Proc proc) :=
  match i, pend p with
  | stat_done err, stat_memoryDb baseDir loc =>
      Some (memoryDb_stat_done (st p) (channel p) baseDir loc err)
  | stat_done err, stat_sqliteDb sqliteDbPath =>
      Some (sqliteDb_stat_done (st p) (channel p) sqliteDbPath err)
  | upgrade_done err, upgrading _ _ _ =>
      Some (upgraded (st p) (channel p) err)
  | app_emits name port, serving =>
      Some (dispatch (st p) (app_listeners (st p)) name port ;; mret p)
  | parent_disconnects, _ =>
      if channel p then
        Some (dispatch (st p) (process_listeners (st p)) "disconnect" JUndefined ;;
              mret {| st := st p; pend := pend p; channel := false |})
      else None
  | _, _ => None
  end.

(** *** The script in a world *)

(** What the world answers to the operation the script waits for. *)
Definition answer (w : World) (p : proc) : option (input * World) :=
  match pend p with
  | stat_memoryDb _ loc => Some (stat_done (bool_decide (loc ∉ files w)), w)
  | stat_sqliteDb loc => Some (stat_done (bool_decide (loc ∉ files w)), w)
  | upgrading baseDir loc dryRun =>
      let '(err, fs') := migrate w baseDir loc dryRun (files w) in
      Some (upgrade_done err, with_files fs' w)
  | serving => None
  end.

(** The script from a state where it waits: at most [n] turns, each on the
    world's answer, until nothing it started is outstanding. *)
Fixpoint settle (n : nat) (w : World) (p : proc) : Proc proc * World :=
  match n with
  | O => (mret p, w)
  | S n' =>
      match answer w p with
      | None => (mret p, w)
      | Some (i, w') =>
          match turn p i with
          | None => (mret p, w')
          | Some (t, Done p') =>
              let '((t', r), w'') := settle n' w' p' in ((t ++ t')%list, r, w'')
          | Some (t, Exited c) => ((t, Exited c), w')
          | Some (t, Uncaught e) => ((t, Uncaught e), w')
          end
      end
  end.

(** A first turn [m], then the callbacks; two turns are all the gate can
    take. *)
Definition to_the_end (w : World) (m : Proc proc) : Proc proc * World :=
  match m with
  | (t, Done p) => let '((t', r), w') := settle 2 w p in ((t ++ t')%list, r, w')
  | (t, Exited c) => ((t, Exited c), w)
  | (t, Uncaught e) => ((t, Uncaught e), w)
  end.

(** The gate run to its end in a world. *)
Definition run_gate (w : World) (s : state) (ch : bool) : Proc proc * World :=
  to_the_end w (gate s ch).

(** The whole start-up: the module body, then the callbacks. *)
Definition startup (ps : parse) (w : World) : Proc proc * World :=
  to_the_end w (main ps).

(** *** Vocabulary of the statements *)

(** The events that are work on the file system, on the migration or on
    the server, as opposed to messages. *)
Definition is_work (e : event) : bool :=
  match e with
  | console_log _ | g_error _ _ | g_log _ _ => false
  | _ => true
  end.

Definition is_upgradeDb (e : event) : bool :=
  match e with upgradeDb _ _ _ => true | _ => false end.

Definition is_new_Server (e : event) : bool :=
  match e with new_Server _ => true | _ => false end.

Definition is_app_on (e : event) : bool :=
  match e with app_on _ => true | _ => false end.

Definition is_str (v : jsval) : bool :=
  match v with JStr _ => true | _ => false end.

(** The option letters the [switch] has a case for. *)
Definition recognised : list string :=
  ["v"; "h"; "b"; "c"; "d"; "l"; "N"; "s"; "P"; "M"].

(** A result that falls to the [default] case: the parser's ['?'] for an
    option it does not know and its [':'] for a missing argument are
    such. *)
Definition unrecognised (o : getopt_result) : Prop :=
  r_option o ∉ recognised.

(** A result after which the loop asks for the next one: any letter but
    [v] and [h], with the argument a string where the script uses it as
    one. *)
Definition continues (o : getopt_result) : Prop :=
  r_option o ∈ ["c"; "l"; "N"; "s"; "P"; "M"] ∨
  (r_option o ∈ ["b"; "d"] ∧ is_str (r_optarg o) = true).

(** The diagnostics of the usage errors, lines 98, 107 and 112. *)
Definition near_option_msg (o : getopt_result) (cmd0 : string) : event :=
  g_error "Invalid usage (near option '%s'), try `{{%s --help}}`."
    [r_optopt o; JStr cmd0].
Definition extra_arguments_msg (cmd0 : string) : event :=
  g_error "Invalid usage (extra arguments), try `{{%s --help}}`." [JStr cmd0].
Definition no_listen_msg (cmd0 : string) : event :=
  g_error "Listen port was not specified, try `{{%s --help}}`." [JStr cmd0].

(** The diagnostic of line 112, whatever its arguments. *)
Definition is_no_listen (e : event) : bool :=
  match e with
  | g_error fmt _ =>
      String.eqb fmt "Listen port was not specified, try `{{%s --help}}`."
  | _ => false
  end.

(** [memoryDbLocation], line 210-211, for a base directory that is a
    string. *)
Definition memoryDbLocation (s : state) (b : string) : string :=
  match env_truthy (penv s) "STRONGLOOP_MESH_DB" with
  | Some p => p
  | None => path_join H b "strong-pm.json"
  end.

(** The events of [startPm] and the state it leaves. *)
Definition startPm_events (s : state) : list event :=
  [ new_Server {|
      Server.Driver := driver s; Server.baseDir := base s;
      Server.basePort := basePort s; Server.cmdName := cmd s;
      Server.listenPort := listen s; Server.dbDriver := dbDriver s |};
    app_on "listening"; app_start ].

Definition started (s : state) (ch : bool) : proc :=
  {| st := set_app_listeners [("listening", on_listening)] s;
     pend := serving; channel := ch |}.

(** The states the process can be in between two turns: after the module
    body, and after any later turn. *)
Inductive reachable : proc -> Prop :=
| reach_main ps t p :
    main ps = (t, Done p) -> reachable p
| reach_turn p i t p' :
    reachable p -> turn p i = Some (t, Done p') -> reachable p'.

(** What every state between two turns satisfies: the handler of
    ['disconnect'] is installed, [app] has at most its ['listening']
    handler, and the channel is as the process found it. *)
Definition installed (s : state) : Prop :=
  process_listeners s = [("disconnect", on_disconnect)] /\
  Forall (fun l => l.2 = on_listening) (app_listeners s).

Definition steady (p : proc) : Prop :=
  installed (st p) /\ channel p = connected pr.

Ltac by_option c :=
  repeat match goal with
    | |- context [String.eqb c ?l] => destruct (String.eqb_spec c l)
    | H : context [String.eqb c ?l] |- _ => destruct (String.eqb_spec c l)
    end.

(** *** Vocabulary of the further statements *)

Definition is_fs_stat (e : event) : bool :=
  match e with fs_stat _ => true | _ => false end.

Definition is_mkdirp (e : event) : bool :=
  match e with mkdirp _ => true | _ => false end.

(** The warning of line 78, whatever its argument. *)
Definition is_config_warning (e : event) : bool :=
  match e with
  | g_error fmt _ => String.eqb fmt "Warning: ignoring config file: %s"
  | _ => false
  end.

(** The results for the two options kept for old job files, [-c] and
    [-N] (lines 77-79 and 86-87). *)
Definition is_legacy_option (o : getopt_result) : bool :=
  String.eqb (r_option o) "c" || String.eqb (r_option o) "N".

(** Whether the letter [c] is among the results. *)
Definition has_option (c : string) (rs : list getopt_result) : bool :=
  existsb (fun o => String.eqb (r_option o) c) rs.


(** The names [Object.prototype] has a property for. *)
Definition inherited_names : list string :=
  ["constructor"; "__proto__"; "__defineGetter__"; "__defineSetter__";
   "__lookupGetter__"; "__lookupSetter__"; "hasOwnProperty"; "isPrototypeOf";
   "propertyIsEnumerable"; "toLocaleString"; "toString"; "valueOf"].

(** A trace that ends with a diagnostic on [g.error]. *)
Definition ends_with_g_error (t : list event) : Prop :=
  exists t0 fmt args, t = (t0 ++ [g_error fmt args])%list.

(** The variables a [Server] is configured from, with [process.env]. *)
Definition configuration (s : state)
  : string * jsval * jsval * jsval * jsval * string * gmap string string :=
  (cmd s, base s, listen s, driver s, basePort s, dbDriver s, penv s).

(** ** Basic facts *)

Lemma bind_Done {A B} (t : list event) (a : A) (f : A -> Proc B) :
  ((t, Done a) ≫= f) = ((t ++ trace (f a))%list, outcome (f a)).
Proof. unfold mbind, Proc_bind, trace, outcome. by destruct (f a). Qed.

Lemma bind_Exited {A B} (t : list event) (c : Z) (f : A -> Proc B) :
  ((t, Exited c) ≫= f) = (t, Exited c).
Proof. reflexivity. Qed.

Lemma bind_Uncaught {A B} (t : list event) (e : string) (f : A -> Proc B) :
  ((t, Uncaught e) ≫= f) = (t, Uncaught e).
Proof. reflexivity. Qed.

Lemma startPm_eq (s : state) (ch : bool) :
  startPm s ch = (startPm_events s, Done (started s ch)).
Proof. reflexivity. Qed.

(** *** The [switch] *)

Lemma switch_messages (o : getopt_result) (s : state) :
  Forall (fun e => is_work e = false) (trace (switch o s)).
Proof.
  unfold switch. by_option (r_option o); try destruct (r_optarg o);
    cbn; repeat constructor.
Qed.

Lemma switch_keeps (o : getopt_result) (s s' : state) (t : list event) :
  switch o s = (t, Done s') ->
  cmd s' = cmd s /\ process_listeners s' = process_listeners s /\
  app_listeners s' = app_listeners s.
Proof.
  unfold switch. by_option (r_option o); try destruct (r_optarg o);
    cbn; intros E; inversion E; subst; auto.
Qed.

Lemma switch_exit (o : getopt_result) (s : state) (t : list event) (c : Z) :
  switch o s = (t, Exited c) -> c = 0 \/ c = 1.
Proof.
  unfold switch. by_option (r_option o); try destruct (r_optarg o);
    cbn; intros E; inversion E; subst; auto.
Qed.

Lemma switch_listen (o : getopt_result) (s s' : state) (t : list event) :
  switch o s = (t, Done s') ->
  listen s' = if String.eqb (r_option o) "l" then r_optarg o else listen s.
Proof.
  unfold switch. by_option (r_option o); try destruct (r_optarg o);
    cbn; intros E; inversion E; subst; try reflexivity; congruence.
Qed.

Lemma switch_unrecognised (o : getopt_result) (s : state) :
  unrecognised o -> switch o s = ([near_option_msg o (cmd s)], Exited 1).
Proof.
  unfold unrecognised, recognised, switch. intros Hn.
  by_option (r_option o); try reflexivity;
    exfalso; apply Hn; match goal with E : r_option o = _ |- _ => rewrite E end;
    set_solver.
Qed.

Lemma switch_continues (o : getopt_result) (s : state) :
  continues o ->
  exists t s', switch o s = (t, Done s') /\
    (is_str (base s) = true -> is_str (base s') = true).
Proof.
  unfold continues, switch. intros [Hin | [Hin Hstr]].
  - repeat (apply elem_of_cons in Hin as [-> | Hin]); try (by inversion Hin);
      cbn; eauto.
  - destruct (r_optarg o) eqn:Ea; try discriminate.
    repeat (apply elem_of_cons in Hin as [-> | Hin]); try (by inversion Hin);
      cbn; eauto.
Qed.

(** *** The option loop *)

Lemma option_loop_cons (o : getopt_result) (rs : list getopt_result) (s : state) :
  option_loop (o :: rs) s = (switch o s ≫= option_loop rs).
Proof. reflexivity. Qed.

Lemma option_loop_messages (rs : list getopt_result) (s : state) :
  Forall (fun e => is_work e = false) (trace (option_loop rs s)).
Proof.
  revert s. induction rs as [|o rs IH]; intros s; [constructor|].
  rewrite option_loop_cons. pose proof (switch_messages o s) as Hm.
  destruct (switch o s) as [t [s'| |]]; cbn in Hm; try exact Hm.
  rewrite bind_Done. cbn. apply Forall_app; split; [exact Hm | apply IH].
Qed.

Lemma option_loop_keeps (rs : list getopt_result) (s s' : state) (t : list event) :
  option_loop rs s = (t, Done s') ->
  cmd s' = cmd s /\ process_listeners s' = process_listeners s /\
  app_listeners s' = app_listeners s.
Proof.
  revert s t. induction rs as [|o rs IH]; intros s t.
  - intros E; inversion E; auto.
  - rewrite option_loop_cons.
    destruct (switch o s) as [t1 [s1| |]] eqn:E1; try discriminate.
    rewrite bind_Done. destruct (option_loop rs s1) as [t2 r2] eqn:E2.
    cbn. intros E; inversion E; subst.
    apply IH in E2 as (-> & -> & ->). by apply switch_keeps in E1.
Qed.

Lemma option_loop_exit (rs : list getopt_result) (s : state) (t : list event) (c : Z) :
  option_loop rs s = (t, Exited c) -> c = 0 \/ c = 1.
Proof.
  revert s t. induction rs as [|o rs IH]; intros s t.
  - discriminate.
  - rewrite option_loop_cons.
    destruct (switch o s) as [t1 [s1| |]] eqn:E1; try discriminate.
    + rewrite bind_Done. destruct (option_loop rs s1) as [t2 r2] eqn:E2.
      cbn. intros E; inversion E; subst. by eapply IH.
    + rewrite bind_Exited. intros E; inversion E; subst. by eapply switch_exit.
Qed.

(** The loop over results that all continue runs to its end, and leaves
    [base] a string when it was one. *)
Lemma option_loop_continues (rs : list getopt_result) (s : state) :
  Forall continues rs ->
  exists t s', option_loop rs s = (t, Done s') /\
    (is_str (base s) = true -> is_str (base s') = true).
Proof.
  intros Hall. revert s. induction Hall as [|o rs Ho _ IH]; intros s.
  - exists [], s. auto.
  - destruct (switch_continues o s Ho) as (t1 & s1 & E1 & Hb1).
    destruct (IH s1) as (t2 & s2 & E2 & Hb2).
    exists (t1 ++ t2)%list, s2. split; [|auto].
    rewrite option_loop_cons, E1, bind_Done, E2. reflexivity.
Qed.

(** The loop up to the first result the [switch] has no case for. *)
Lemma option_loop_unrecognised (pre rest : list getopt_result)
    (o : getopt_result) (s : state) :
  Forall continues pre -> unrecognised o ->
  exists t, option_loop (pre ++ o :: rest) s
             = ((t ++ [near_option_msg o (cmd s)])%list, Exited 1) /\
            Forall (fun e => is_work e = false) t.
Proof.
  intros Hall Hun. revert s. induction Hall as [|p pre Hp _ IH]; intros s.
  - exists []. split; [|constructor].
    cbn [app]. rewrite option_loop_cons, switch_unrecognised by done.
    reflexivity.
  - destruct (switch_continues p s Hp) as (t1 & s1 & E1 & _).
    destruct (IH s1) as (t2 & E2 & Hm).
    exists (t1 ++ t2)%list. split.
    + rewrite <- app_comm_cons, option_loop_cons, E1, bind_Done, E2. cbn.
      apply switch_keeps in E1 as (-> & _). by rewrite app_assoc.
    + apply Forall_app; split; [|done].
      pose proof (switch_messages p s) as Hm1. by rewrite E1 in Hm1.
Qed.

(** [listen] after the loop: the argument of the last [l], or what it was. *)
Lemma option_loop_listen (rs : list getopt_result) (s s' : state) (t : list event) :
  option_loop rs s = (t, Done s') ->
  listen s' = listen s \/
  exists o, o ∈ rs /\ r_option o = "l" /\ listen s' = r_optarg o.
Proof.
  revert s t. induction rs as [|o rs IH]; intros s t.
  - intros E; inversion E; auto.
  - rewrite option_loop_cons.
    destruct (switch o s) as [t1 [s1| |]] eqn:E1; try discriminate.
    rewrite bind_Done. destruct (option_loop rs s1) as [t2 r2] eqn:E2.
    cbn. intros E; inversion E; subst.
    apply IH in E2 as [E2 | (o' & Hin & Hl & E2)].
    + rewrite E2. apply switch_listen in E1.
      destruct (String.eqb_spec (r_option o) "l") as [El|_]; [right|by left].
      exists o. split; [left|done].
    + right. exists o'. split; [by right|done].
Qed.

(** *** The listeners the script installs *)

Lemma startPm_steady (s : state) :
  installed s -> steady (started s (connected pr)).
Proof.
  intros [Hp _]. repeat split; cbn; [done|]. by repeat constructor.
Qed.

Lemma dispatch_listening (s : state) (ls : list (string * callback))
    (name : string) (arg : jsval) :
  Forall (fun l => l.2 = on_listening) ls ->
  exists t, dispatch s ls name arg = (t, Done tt).
Proof.
  induction 1 as [|[n cb] ls Hcb _ [t IH]]; [by exists []|].
  cbn in Hcb. subst cb. cbn [dispatch].
  destruct (String.eqb n name); cbn [run_callback].
  - unfold listening_handler. rewrite IH. cbn. eauto.
  - rewrite IH. cbn. eauto.
Qed.

(** A turn ends in a steady state, or with exit status 1, or, on the
    parent's disconnection only, with exit status 2. *)
Lemma turn_steady (p : proc) (i : input) (t : list event) (r : res proc) :
  steady p -> turn p i = Some (t, r) ->
  match r with
  | Done p' => steady p'
  | Exited c => match i with parent_disconnects => c = 2 | _ => c = 1 end
  | Uncaught _ => False
  end.
Proof.
  intros [[Hp Ha] Hc]. unfold turn.
  destruct i as [err|err|name port|], (pend p) as [b loc|b loc d|loc|] eqn:Ep;
    try discriminate.
  - unfold memoryDb_stat_done, upgraded. rewrite startPm_eq.
    destruct err; cbn; intros E; inversion E; subst.
    + rewrite Hc. by apply startPm_steady.
    + by repeat split.
  - unfold sqliteDb_stat_done. rewrite startPm_eq.
    destruct err; cbn; intros E; inversion E; subst; [|done].
    rewrite Hc. by apply startPm_steady.
  - unfold upgraded. rewrite startPm_eq.
    destruct err; cbn; intros E; inversion E; subst; [done|].
    rewrite Hc. by apply startPm_steady.
  - destruct (dispatch_listening (st p) _ name port Ha) as [t' E'].
    rewrite E'. cbn. intros E; inversion E; subst. by repeat split.
  - rewrite Hp. destruct (channel p); [|discriminate].
    cbn. intros E; inversion E; subst. done.
  - rewrite Hp. destruct (channel p); [|discriminate].
    cbn. intros E; inversion E; subst. done.
  - rewrite Hp. destruct (channel p); [|discriminate].
    cbn. intros E; inversion E; subst. done.
  - rewrite Hp. destruct (channel p); [|discriminate].
    cbn. intros E; inversion E; subst. done.
Qed.

Lemma gate_steady (s : state) (t : list event) (p : proc) :
  installed s -> gate s (connected pr) = (t, Done p) -> steady p.
Proof.
  intros Hs. unfold gate, checkAndUpgradeDb, as_path.
  destruct (String.eqb (dbDriver s) "sqlite3").
  - destruct (env_truthy (penv s) "STRONGLOOP_MESH_DB");
      [|destruct (base s); try discriminate];
      cbn; intros E; inversion E; subst; by split.
  - destruct (base s); try discriminate.
    cbn; intros E; inversion E; subst; by split.
Qed.

Lemma gate_exit (s : state) (t : list event) (c : Z) :
  gate s (connected pr) = (t, Exited c) -> False.
Proof.
  unfold gate, checkAndUpgradeDb, as_path.
  destruct (String.eqb (dbDriver s) "sqlite3").
  - destruct (env_truthy (penv s) "STRONGLOOP_MESH_DB");
      [|destruct (base s)]; discriminate.
  - destruct (base s); discriminate.
Qed.

(** Lines 104-118 case by case, for a [base] that is a string. *)
Lemma after_options_eq (n : nat) (s : state) (b : string) :
  base s = JStr b ->
  after_options n s =
    if negb (Nat.eqb n (length (argv pr))) then
      ([extra_arguments_msg (cmd s)], Exited 1)
    else if loose_eq_null (listen s) then
      ([no_listen_msg (cmd s)], Exited 1)
    else
      let s1 := set_base (JStr (path_resolve H b)) s in
      (mkdirp (path_resolve H b) :: process_chdir (path_resolve H b)
         :: trace (gate s1 (connected pr)),
       outcome (gate s1 (connected pr))).
Proof.
  intros Eb. unfold after_options, as_path. rewrite Eb.
  destruct (negb _); [reflexivity|].
  cbn -[gate]. destruct (loose_eq_null (listen s)); [reflexivity|].
  cbn -[gate]. by destruct (gate _ _).
Qed.

Lemma after_options_throws (n : nat) (s : state) :
  is_str (base s) = false -> after_options n s = ([], Uncaught "TypeError").
Proof. unfold after_options, as_path. by destruct (base s). Qed.

Lemma after_options_steady (n : nat) (s : state) (t : list event) (r : res proc) :
  installed s -> after_options n s = (t, r) ->
  match r with
  | Done p => steady p
  | Exited c => c = 1
  | Uncaught _ => True
  end.
Proof.
  intros Hs. destruct (is_str (base s)) eqn:Eb.
  - destruct (base s) as [| | | |b| |] eqn:Eb'; try discriminate.
    rewrite (after_options_eq n s b Eb').
    destruct (negb _); [intros E; inversion E; subst; reflexivity|].
    destruct (loose_eq_null _); [intros E; inversion E; subst; reflexivity|].
    cbn zeta. set (s1 := set_base _ s).
    assert (installed s1) as Hs1 by exact Hs.
    destruct (gate s1 (connected pr)) as [tg rg] eqn:Eg.
    cbn. intros E; inversion E; subst.
    destruct r; [by eapply gate_steady | by exfalso; eapply gate_exit | exact I].
  - rewrite after_options_throws by done. intros E; inversion E; subst. exact I.
Qed.

Lemma main_eq (ps : parse) (cmd0 : string) :
  command_name = ([], Done cmd0) -> main ps = from_line_40 ps cmd0.
Proof.
  intros E. unfold main. rewrite E, bind_Done. by destruct (from_line_40 _ _).
Qed.

Lemma from_line_40_steady (ps : parse) (cmd0 : string)
    (t : list event) (r : res proc) :
  from_line_40 ps cmd0 = (t, r) ->
  match r with
  | Done p => steady p
  | Exited c => c = 0 \/ c = 1
  | Uncaught _ => True
  end.
Proof.
  unfold from_line_40.
  destruct (option_loop _ _) as [t1 [s1| |]] eqn:E1.
  - rewrite bind_Done.
    apply option_loop_keeps in E1 as (_ & Hp & Ha).
    assert (installed s1) as Hs1.
    { split; [by rewrite Hp|]. rewrite Ha. constructor. }
    destruct (ending ps) as [n|err].
    + destruct (after_options n s1) as [t2 r2] eqn:E2.
      cbn. intros E; inversion E; subst.
      pose proof (after_options_steady _ _ _ _ Hs1 E2) as Hr.
      destruct r; auto.
    + cbn. intros E; inversion E; subst. exact I.
  - rewrite bind_Exited. intros E; inversion E; subst.
    by eapply option_loop_exit.
  - rewrite bind_Uncaught. intros E; inversion E; subst. exact I.
Qed.

Lemma command_name_cases :
  (exists cmd0, command_name = ([], Done cmd0)) \/
  command_name = ([], Uncaught "TypeError").
Proof.
  unfold command_name.
  destruct (env_truthy _ _); [left; eauto|].
  destruct (argv pr !! 1%nat); [left; eauto | by right].
Qed.

Lemma main_steady (ps : parse) (t : list event) (r : res proc) :
  main ps = (t, r) ->
  match r with
  | Done p => steady p
  | Exited c => c = 0 \/ c = 1
  | Uncaught _ => True
  end.
Proof.
  destruct command_name_cases as [[cmd0 E] | E].
  - rewrite (main_eq ps cmd0 E). apply from_line_40_steady.
  - unfold main. rewrite E, bind_Uncaught. intros E'; inversion E'; subst.
    exact I.
Qed.

Lemma reachable_steady (p : proc) : reachable p -> steady p.
Proof.
  induction 1 as [ps t p Hm | p i t p' _ IH Ht].
  - exact (main_steady _ _ _ Hm).
  - exact (turn_steady _ _ _ _ IH Ht).
Qed.

(** *** The gate *)

Lemma gate_sqlite3 (s : state) (ch : bool) (b : string) :
  dbDriver s = "sqlite3" -> base s = JStr b ->
  gate s ch =
    ([fs_stat (memoryDbLocation s b)],
     Done {| st := s; pend := stat_memoryDb (JStr b) (memoryDbLocation s b);
             channel := ch |}).
Proof.
  intros Ed Eb. unfold gate, checkAndUpgradeDb, memoryDbLocation.
  rewrite Ed, Eb. cbn. by destruct (env_truthy _ _).
Qed.

Lemma gate_other (s : state) (ch : bool) (b : string) :
  dbDriver s <> "sqlite3" -> base s = JStr b ->
  gate s ch =
    ([fs_stat (path_join H b "strong-mesh.db")],
     Done {| st := s; pend := stat_sqliteDb (path_join H b "strong-mesh.db");
             channel := ch |}).
Proof.
  intros Ed Eb. unfold gate. apply String.eqb_neq in Ed. by rewrite Ed, Eb.
Qed.

(** The gate in a world where the legacy file is missing. *)
Lemma run_gate_no_legacy (w : World) (s : state) (ch : bool) (b : string) :
  dbDriver s = "sqlite3" -> base s = JStr b ->
  memoryDbLocation s b ∉ files w ->
  run_gate w s ch =
    (fs_stat (memoryDbLocation s b) :: startPm_events s, Done (started s ch), w).
Proof.
  intros Ed Eb Hnot. unfold run_gate, to_the_end.
  rewrite (gate_sqlite3 s ch b Ed Eb). cbn.
  by rewrite bool_decide_eq_true_2.
Qed.

(** The gate in a world where the legacy file is there. *)
Lemma run_gate_legacy (w : World) (s : state) (ch : bool) (b : string) :
  dbDriver s = "sqlite3" -> base s = JStr b ->
  memoryDbLocation s b ∈ files w ->
  run_gate w s ch =
    let loc := memoryDbLocation s b in
    let migration := migrate w (JStr b) loc false (files w) in
    (match migration.1 with
     | None =>
         (fs_stat loc :: upgradeDb (JStr b) loc false :: startPm_events s,
          Done (started s ch))
     | Some message =>
         ([fs_stat loc; upgradeDb (JStr b) loc false;
           g_error "%s(%d) %s" [JStr (cmd s); JNum (pid pr); JStr message]],
          Exited 1)
     end, with_files migration.2 w).
Proof.
  intros Ed Eb Hin. unfold run_gate, to_the_end.
  rewrite (gate_sqlite3 s ch b Ed Eb). cbn.
  rewrite bool_decide_eq_false_2 by (intros Hn; by apply Hn).
  cbn. destruct (migrate w _ _ _ _) as [[message|] fs']; reflexivity.
Qed.

(** ** The backend gate *)

(** C1. With the sqlite3 backend selected and the legacy JSON file found at
    its location, the gate calls the migration once, with [dryRun] false;
    when the migration succeeds [startPm] runs; when it fails nothing of
    [startPm] happens, the diagnostic carries the process id and the
    message of the error, and the process exits with status 1. *)
Theorem legacy_file_is_migrated (w : World) (s : state) (ch : bool) (b : string) :
  dbDriver s = "sqlite3" -> base s = JStr b ->
  memoryDbLocation s b ∈ files w ->
  let loc := memoryDbLocation s b in
  let migration := migrate w (JStr b) loc false (files w) in
  let run := run_gate w s ch in
  List.filter is_upgradeDb (trace run.1) = [upgradeDb (JStr b) loc false] /\
  run.2 = with_files migration.2 w /\
  match migration.1 with
  | None =>
      run.1 = (fs_stat loc :: upgradeDb (JStr b) loc false :: startPm_events s,
               Done (started s ch))
  | Some message =>
      run.1 = ([fs_stat loc; upgradeDb (JStr b) loc false;
                g_error "%s(%d) %s" [JStr (cmd s); JNum (pid pr); JStr message]],
               Exited 1) /\
      List.filter is_new_Server (trace run.1) = []
  end.
Proof.
  intros Ed Eb Hin loc migration run. subst run.
  rewrite (run_gate_legacy w s ch b Ed Eb Hin). cbn zeta.
  fold loc. fold migration.
  destruct (migration.1) as [message|]; cbn; auto.
Qed.

(** C2. With the JSON backend selected by [-M] and a file found at
    [strong-mesh.db] in the base directory, the gate reports the file, asks
    for its deletion and exits with status 1; no [Server] is constructed. *)
Theorem sqlite_file_blocks_json_backend (w : World) (s : state) (ch : bool) (b : string) :
  dbDriver s = "memory" -> base s = JStr b ->
  path_join H b "strong-mesh.db" ∈ files w ->
  let sqliteDbPath := path_join H b "strong-mesh.db" in
  let run := run_gate w s ch in
  (forall o s0, r_option o = "M" -> switch o s0 = ([], Done (set_dbDriver "memory" s0))) /\
  run =
    ([fs_stat sqliteDbPath;
      g_error
        "%s(%d) {{SQLite3}} database found at %s. Please delete thisfile if you wish to use the {{JSON}} file database."
        [JStr (cmd s); JNum (pid pr); JStr sqliteDbPath]],
     Exited 1, w) /\
  List.filter is_new_Server (trace run.1) = [].
Proof.
  intros Ed Eb Hin sqliteDbPath run. split.
  { intros o s0 Eo. unfold switch. by rewrite Eo. }
  assert (run = ([fs_stat sqliteDbPath;
      g_error
        "%s(%d) {{SQLite3}} database found at %s. Please delete thisfile if you wish to use the {{JSON}} file database."
        [JStr (cmd s); JNum (pid pr); JStr sqliteDbPath]],
     Exited 1, w)) as ->; [|done].
  subst run. unfold run_gate, to_the_end.
  rewrite (gate_other s ch b) by (by rewrite ?Ed). cbn.
  rewrite bool_decide_eq_false_2 by (intros Hn; by apply Hn).
  reflexivity.
Qed.

(** C8. With the sqlite3 backend selected and no legacy file at its
    location, the gate goes to [startPm] and the migration is not called.
    So after a migration that succeeded and left no legacy file behind, a
    second run of the gate goes to [startPm], calls no migration and
    leaves the world as it is. *)
Theorem no_legacy_file_no_migration (w : World) (s : state) (ch : bool) (b : string) :
  dbDriver s = "sqlite3" -> base s = JStr b ->
  let loc := memoryDbLocation s b in
  let straight := (fs_stat loc :: startPm_events s, Done (started s ch)) in
  (loc ∉ files w ->
     run_gate w s ch = (straight, w) /\
     List.filter is_upgradeDb (trace straight) = []) /\
  (forall fs' : gset string,
     loc ∈ files w ->
     migrate w (JStr b) loc false (files w) = (None, fs') ->
     loc ∉ fs' ->
     let w' := (run_gate w s ch).2 in
     List.filter is_upgradeDb (trace (run_gate w s ch).1)
       = [upgradeDb (JStr b) loc false] /\
     run_gate w' s ch = (straight, w')).
Proof.
  intros Ed Eb loc straight. split.
  - intros Hnot. split; [by apply run_gate_no_legacy | reflexivity].
  - intros fs' Hin Em Hnot w'. subst w'.
    rewrite (run_gate_legacy w s ch b Ed Eb Hin). cbn zeta. fold loc.
    rewrite Em. cbn. split; [reflexivity|].
    by apply run_gate_no_legacy.
Qed.

(** ** The server's one event *)

(** C9. [startPm] registers one handler on [app], for ['listening']. When
    the event arrives the handler logs three messages in this order: the
    name and versions with the port of the address the event carries, the
    base folder, and the base port of the applications. No other event of
    [app] makes the script do anything. *)
Theorem listening_logs_three_lines (s : state) (ch : bool) (port : jsval) :
  let p := started s ch in
  startPm s ch = (startPm_events s, Done p) /\
  List.filter is_app_on (startPm_events s) = [app_on "listening"] /\
  turn p (app_emits "listening" port) =
    Some ([g_log "%s(%d): {{StrongLoop PM}} v%s (API v%s) on port `%s`"
             [JStr (cmd s); JNum (pid pr); JStr (versionPm H);
              JStr (versionApi H); port];
           g_log "%s(%d): Base folder `%s`"
             [JStr (cmd s); JNum (pid pr); base s];
           g_log "%s(%d): Applications on port `%d + service ID`"
             [JStr (cmd s); JNum (pid pr); basePort s]],
          Done p) /\
  (forall name, name <> "listening" ->
     turn p (app_emits name port) = Some ([], Done p)).
Proof.
  intros p. repeat split.
  intros name Hn. unfold turn, p, started.
  cbn [pend st app_listeners set_app_listeners dispatch].
  destruct (String.eqb_spec "listening" name) as [E|_]; [by subst|reflexivity].
Qed.

(** ** The parent's disconnection *)

(** C4. In every state the script can be in between two turns, whatever it
    waits for, the parent's disconnection on an open channel makes the
    process exit with status 2 before anything else happens. Without a
    channel the disconnection is never signalled, and status 2 is the exit
    status of no other turn, nor of the module body. *)
Theorem parent_loss_exits_2 :
  (forall p, reachable p -> connected pr = true ->
     turn p parent_disconnects = Some ([], Exited 2)) /\
  (forall p, reachable p -> connected pr = false ->
     turn p parent_disconnects = None) /\
  (forall p i t c, reachable p -> turn p i = Some (t, Exited c) ->
     c = 2 -> i = parent_disconnects) /\
  (forall ps t c, main ps = (t, Exited c) -> c <> 2).
Proof.
  repeat split.
  - intros p Hr Hc. destruct (reachable_steady p Hr) as [[Hp _] Hch].
    unfold turn. rewrite Hp, Hch, Hc. by destruct (pend p).
  - intros p Hr Hc. destruct (reachable_steady p Hr) as [_ Hch].
    unfold turn. rewrite Hch, Hc. by destruct (pend p).
  - intros p i t c Hr Ht ->.
    pose proof (turn_steady p i t _ (reachable_steady p Hr) Ht) as Hx.
    by destruct i.
  - intros ps t c Hm ->. apply main_steady in Hm as [?|?]; lia.
Qed.

(** ** The driver registry *)

(** C6. The name given to [-d] is lower-cased before it is looked up in
    [DRIVERS]: every name whose lower-casing is [docker] selects the
    docker driver, every name whose lower-casing is [direct] the direct
    driver. *)
Theorem driver_lookup_ignores_case (name : string) (o : getopt_result) (s : state) :
  r_option o = "d" -> r_optarg o = JStr name ->
  (toLowerCase H name = "docker" ->
     lookup_driver H name = JModule ContainerDriver /\
     switch o s = ([], Done (set_driver (JModule ContainerDriver) s))) /\
  (toLowerCase H name = "direct" ->
     lookup_driver H name = JModule DirectDriver /\
     switch o s = ([], Done (set_driver (JModule DirectDriver) s))).
Proof.
  intros Eo Ea. unfold switch, lookup_driver. rewrite Eo, Ea. cbn.
  split; intros ->; split; reflexivity.
Qed.

(** *** Where the diagnostic of line 112 can come from *)

Lemma switch_not_no_listen (o : getopt_result) (s : state) :
  Forall (fun e => is_no_listen e = false) (trace (switch o s)).
Proof.
  unfold switch. by_option (r_option o); try destruct (r_optarg o);
    cbn; repeat constructor.
Qed.

Lemma option_loop_not_no_listen (rs : list getopt_result) (s : state) :
  Forall (fun e => is_no_listen e = false) (trace (option_loop rs s)).
Proof.
  revert s. induction rs as [|o rs IH]; intros s; [constructor|].
  rewrite option_loop_cons. pose proof (switch_not_no_listen o s) as Hm.
  destruct (switch o s) as [t [s'| |]]; cbn in Hm; try exact Hm.
  rewrite bind_Done. cbn. apply Forall_app; split; [exact Hm | apply IH].
Qed.

Lemma gate_not_no_listen (s : state) (ch : bool) :
  Forall (fun e => is_no_listen e = false) (trace (gate s ch)).
Proof.
  unfold gate, checkAndUpgradeDb, as_path.
  destruct (String.eqb (dbDriver s) "sqlite3").
  - destruct (env_truthy (penv s) "STRONGLOOP_MESH_DB");
      [|destruct (base s)]; cbn; repeat constructor.
  - destruct (base s); cbn; repeat constructor.
Qed.

Lemma dispatch_not_no_listen (s : state) (ls : list (string * callback))
    (name : string) (arg : jsval) :
  Forall (fun e => is_no_listen e = false) (trace (dispatch s ls name arg)).
Proof.
  induction ls as [|[n cb] ls IH]; [constructor|].
  cbn [dispatch]. destruct (String.eqb n name); [destruct cb|]; cbn.
  - constructor.
  - destruct (dispatch s ls name arg) as [t r]. cbn in *. by repeat constructor.
  - destruct (dispatch s ls name arg) as [t r]. exact IH.
Qed.

Lemma turn_not_no_listen (p : proc) (i : input) (t : list event) (r : res proc) :
  turn p i = Some (t, r) -> Forall (fun e => is_no_listen e = false) t.
Proof.
  unfold turn.
  destruct i as [err|err|name port|], (pend p) as [b loc|b loc d|loc|];
    try discriminate;
    try (unfold memoryDb_stat_done, sqliteDb_stat_done, upgraded;
         rewrite ?startPm_eq; destruct err; cbn;
         intros E; inversion E; subst; by repeat constructor);
    try (pose proof (dispatch_not_no_listen (st p) (app_listeners (st p)) name port) as Hd;
         destruct (dispatch _ _ _ _) as [t' [[]| |]]; cbn in Hd |- *;
         intros E; inversion E; subst; by rewrite ?app_nil_r);
    try (destruct (channel p); [|discriminate];
         pose proof (dispatch_not_no_listen (st p) (process_listeners (st p))
                       "disconnect" JUndefined) as Hd;
         destruct (dispatch _ _ _ _) as [t' [[]| |]]; cbn in Hd |- *;
         intros E; inversion E; subst; by rewrite ?app_nil_r).
Qed.

Lemma settle_not_no_listen (n : nat) (w : World) (p : proc) :
  Forall (fun e => is_no_listen e = false) (trace (settle n w p).1).
Proof.
  revert w p. induction n as [|n IH]; intros w p; [constructor|].
  cbn [settle]. destruct (answer w p) as [[i w']|]; [|constructor].
  destruct (turn p i) as [[t r]|] eqn:Et; [|constructor].
  apply turn_not_no_listen in Et.
  destruct r as [p'| |]; try exact Et.
  specialize (IH w' p'). destruct (settle n w' p') as [[t' r'] w''].
  cbn in *. apply Forall_app; by split.
Qed.

Lemma to_the_end_not_no_listen (w : World) (m : Proc proc) :
  Forall (fun e => is_no_listen e = false) (trace m) ->
  Forall (fun e => is_no_listen e = false) (trace (to_the_end w m).1).
Proof.
  destruct m as [t [p| |]]; unfold to_the_end; try done.
  intros Ht. pose proof (settle_not_no_listen 2 w p) as Hs.
  destruct (settle 2 w p) as [[t' r'] w']. unfold trace in *. cbn [fst] in *.
  apply Forall_app; by split.
Qed.

(** Two turns bring the gate to its end: what is left is a server that
    was started. *)
Lemma settle_2_serving (w w' : World) (p p' : proc) (t : list event) :
  settle 2 w p = (t, Done p', w') -> pend p' = serving.
Proof.
  cbn [settle]. unfold answer, turn.
  destruct (pend p) as [b loc|b loc d|loc|] eqn:Ep; cbn.
  - unfold memoryDb_stat_done, upgraded. rewrite !startPm_eq.
    destruct (bool_decide _); cbn.
    + intros E; inversion E; subst; reflexivity.
    + destruct (migrate w b loc false (files w)) as [[m|] fs']; cbn;
        intros E; inversion E; subst; reflexivity.
  - destruct (migrate w b loc d (files w)) as [[m|] fs']; cbn.
    + discriminate.
    + intros E; inversion E; subst; reflexivity.
  - unfold sqliteDb_stat_done. rewrite !startPm_eq.
    destruct (bool_decide _); cbn.
    + intros E; inversion E; subst; reflexivity.
    + discriminate.
  - intros E; inversion E; subst; exact Ep.
Qed.

(** ** Usage errors *)

Lemma startup_exits (ps : parse) (w : World) (t : list event) (c : Z) :
  main ps = (t, Exited c) -> startup ps w = (t, Exited c, w).
Proof. intros E. unfold startup, to_the_end. by rewrite E. Qed.

Lemma from_line_40_loop (ps : parse) (cmd0 : string) (t : list event) (s : state) :
  option_loop (results ps) (initial_state cmd0) = (t, Done s) ->
  from_line_40 ps cmd0 =
    match ending ps with
    | ParserThrew err => (t, Uncaught err)
    | EndOfOptions n =>
        ((t ++ trace (after_options n s))%list, outcome (after_options n s))
    end.
Proof.
  intros E. unfold from_line_40. rewrite E, bind_Done.
  destruct (ending ps); [reflexivity|]. cbn. by rewrite app_nil_r.
Qed.

(** C3. When the option loop ends with [listen] null or undefined, the
    script reports a usage error and exits with status 1: the missing
    listen port, or the extra arguments when there are some. Up to there
    it has only written messages: no directory is made and no file is
    looked for. *)
Theorem null_listen_port_is_usage_error (ps : parse) (w : World)
    (cmd0 : string) (t : list event) (s : state) (n : nat) :
  command_name = ([], Done cmd0) ->
  option_loop (results ps) (initial_state cmd0) = (t, Done s) ->
  ending ps = EndOfOptions n ->
  is_str (base s) = true ->
  loose_eq_null (listen s) = true ->
  let d := if Nat.eqb n (length (argv pr)) then no_listen_msg cmd0
           else extra_arguments_msg cmd0 in
  startup ps w = ((t ++ [d])%list, Exited 1, w) /\
  Forall (fun e => is_work e = false) (t ++ [d]).
Proof.
  intros Ec El Ee Hb Hl d.
  pose proof (option_loop_messages (results ps) (initial_state cmd0)) as Hm.
  rewrite El in Hm. cbn in Hm.
  destruct (option_loop_keeps _ _ _ _ El) as (Hcmd & _). cbn in Hcmd.
  split.
  - apply startup_exits. rewrite (main_eq ps cmd0 Ec).
    rewrite (from_line_40_loop ps cmd0 t s El), Ee.
    destruct (base s) as [| | | |b| |] eqn:Eb; try discriminate.
    rewrite (after_options_eq n s b Eb), Hl, Hcmd. subst d.
    by destruct (Nat.eqb n (length (argv pr))).
  - apply Forall_app; split; [exact Hm|].
    subst d. destruct (Nat.eqb _ _); by repeat constructor.
Qed.

(** C5, as the script has it. A result the [switch] has no case for,
    reached through results that let the loop continue, ends the process
    with status 1 and the diagnostic that names the option; arguments left
    over once all the results have let the loop continue end it with
    status 1 and the diagnostic of extra arguments, which names the command
    only. In both cases the script has only written messages before. *)
Theorem usage_errors_exit_1 (ps : parse) (w : World) (cmd0 : string) :
  command_name = ([], Done cmd0) ->
  (forall pre o rest,
     results ps = (pre ++ o :: rest)%list ->
     Forall continues pre -> unrecognised o ->
     exists t,
       startup ps w = ((t ++ [near_option_msg o cmd0])%list, Exited 1, w) /\
       Forall (fun e => is_work e = false) t) /\
  (forall n,
     Forall continues (results ps) ->
     ending ps = EndOfOptions n -> n <> length (argv pr) ->
     exists t,
       startup ps w = ((t ++ [extra_arguments_msg cmd0])%list, Exited 1, w) /\
       Forall (fun e => is_work e = false) t).
Proof.
  intros Ec. split.
  - intros pre o rest Er Hpre Hun.
    destruct (option_loop_unrecognised pre rest o (initial_state cmd0) Hpre Hun)
      as (t & E & Hm).
    exists t. split; [|exact Hm].
    apply startup_exits. rewrite (main_eq ps cmd0 Ec).
    unfold from_line_40. rewrite Er, E. reflexivity.
  - intros n Hall Ee Hn.
    destruct (option_loop_continues (results ps) (initial_state cmd0) Hall)
      as (t & s & E & Hb).
    exists t. split.
    + apply startup_exits. rewrite (main_eq ps cmd0 Ec).
      rewrite (from_line_40_loop ps cmd0 t s E), Ee.
      destruct (option_loop_keeps _ _ _ _ E) as (Hcmd & _). cbn in Hcmd.
      specialize (Hb eq_refl).
      destruct (base s) as [| | | |b| |] eqn:Eb; try discriminate.
      rewrite (after_options_eq n s b Eb), Hcmd.
      apply Nat.eqb_neq in Hn. by rewrite Hn.
    + pose proof (option_loop_messages (results ps) (initial_state cmd0)) as Hm.
      by rewrite E in Hm.
Qed.

(** C10. The parser gives [-l] its argument as a string. Then after the
    option loop [listen] is never null or undefined, and it is 8701 when
    no [-l] was given; so lines 111-114 are never run: with no arguments
    left over the script goes on to make the base directory, change to it
    and enter the gate, and no run writes the diagnostic of line 112. *)
Theorem listen_port_is_never_null (ps : parse) :
  (forall o, o ∈ results ps -> r_option o = "l" -> is_str (r_optarg o) = true) ->
  (forall cmd0 t s,
     option_loop (results ps) (initial_state cmd0) = (t, Done s) ->
     loose_eq_null (listen s) = false /\
     ((forall o, o ∈ results ps -> r_option o <> "l") -> listen s = JNum 8701) /\
     (forall n b, base s = JStr b ->
        after_options n s =
          if negb (Nat.eqb n (length (argv pr))) then
            ([extra_arguments_msg (cmd s)], Exited 1)
          else
            let s1 := set_base (JStr (path_resolve H b)) s in
            (mkdirp (path_resolve H b) :: process_chdir (path_resolve H b)
               :: trace (gate s1 (connected pr)),
             outcome (gate s1 (connected pr))))) /\
  (forall w, Forall (fun e => is_no_listen e = false) (trace (startup ps w).1)).
Proof.
  intros Hl.
  assert (forall cmd0 t s,
    option_loop (results ps) (initial_state cmd0) = (t, Done s) ->
    loose_eq_null (listen s) = false) as Hnn.
  { intros cmd0 t s E.
    destruct (option_loop_listen _ _ _ _ E) as [-> | (o & Hin & Eo & ->)];
      [reflexivity|].
    specialize (Hl o Hin Eo). by destruct (r_optarg o). }
  split.
  - intros cmd0 t s E. split; [by eapply Hnn|]. split.
    + intros Hno.
      destruct (option_loop_listen _ _ _ _ E) as [-> | (o & Hin & Eo & _)];
        [reflexivity|]. by destruct (Hno o Hin).
    + intros n b Eb. by rewrite (after_options_eq n s b Eb), (Hnn _ _ _ E).
  - intros w. apply to_the_end_not_no_listen.
    destruct command_name_cases as [[cmd0 Ec] | Ec];
      [|unfold main; rewrite Ec, bind_Uncaught; constructor].
    rewrite (main_eq ps cmd0 Ec).
    pose proof (option_loop_not_no_listen (results ps) (initial_state cmd0)) as Hm.
    unfold from_line_40 at 1.
    destruct (option_loop _ _) as [t [s| |]] eqn:E; try exact Hm.
    rewrite bind_Done. cbn [trace fst] in *.
    apply Forall_app; split; [exact Hm|].
    destruct (ending ps) as [n|err]; [|constructor].
    destruct (is_str (base s)) eqn:Eb.
    + destruct (base s) as [| | | |b| |] eqn:Eb'; try discriminate.
      rewrite (after_options_eq n s b Eb'), (Hnn _ _ _ E).
      destruct (negb _); [by repeat constructor|].
      cbn. repeat constructor. apply gate_not_no_listen.
    + rewrite after_options_throws by done. constructor.
Qed.

(** ** Further facts about the option loop *)

Lemma bind_assoc {A B C} (m : Proc A) (f : A -> Proc B) (g : B -> Proc C) :
  ((m ≫= f) ≫= g) = (m ≫= fun a => f a ≫= g).
Proof.
  destruct m as [t [a| |]]; try reflexivity.
  unfold mbind, Proc_bind. destruct (f a) as [t1 [b| |]]; try reflexivity.
  destruct (g b) as [t2 r2]. by rewrite app_assoc.
Qed.

Lemma option_loop_app (pre rs : list getopt_result) (s : state) :
  option_loop (pre ++ rs) s = (option_loop pre s ≫= option_loop rs).
Proof.
  revert s. induction pre as [|o pre IH]; intros s.
  - cbn [app option_loop]. unfold mret, Proc_ret. rewrite bind_Done.
    by destruct (option_loop rs s).
  - rewrite <- app_comm_cons, !option_loop_cons, bind_assoc.
    destruct (switch o s) as [t [s1| |]]; try reflexivity.
    rewrite !bind_Done. by rewrite IH.
Qed.

(** What one pass through the [switch] leaves alone. *)
Lemma switch_frame (o : getopt_result) (s s' : state) (t : list event) :
  switch o s = (t, Done s') ->
  (r_option o <> "b" -> base s' = base s) /\
  (r_option o <> "l" -> listen s' = listen s) /\
  (r_option o <> "d" -> driver s' = driver s) /\
  (r_option o <> "P" -> basePort s' = basePort s) /\
  (r_option o <> "M" -> dbDriver s' = dbDriver s) /\
  (r_option o <> "s" -> penv s' = penv s).
Proof.
  unfold switch. by_option (r_option o); try destruct (r_optarg o);
    cbn; intros E; inversion E; subst; repeat split; intros; done.
Qed.

(** What one pass through the [switch] assigns. *)
Lemma switch_sets (o : getopt_result) (s s' : state) (t : list event) :
  switch o s = (t, Done s') ->
  (r_option o = "b" -> base s' = r_optarg o) /\
  (r_option o = "l" -> listen s' = r_optarg o) /\
  (r_option o = "d" ->
     exists name, r_optarg o = JStr name /\ driver s' = lookup_driver H name) /\
  (r_option o = "P" -> basePort s' = r_optarg o) /\
  (r_option o = "M" -> dbDriver s' = "memory") /\
  (r_option o = "s" ->
     penv s' = <["STRONGLOOP_PM_SKIP_DEFAULT_INSTALL" := "true"]> (penv s)).
Proof.
  unfold switch. by_option (r_option o); try destruct (r_optarg o) eqn:Ea;
    cbn; intros E; inversion E; subst;
    repeat split; intros; try done; try congruence; eauto.
Qed.

Lemma option_loop_frame (rs : list getopt_result) (s s' : state) (t : list event) :
  option_loop rs s = (t, Done s') ->
  (Forall (fun o => r_option o <> "b") rs -> base s' = base s) /\
  (Forall (fun o => r_option o <> "l") rs -> listen s' = listen s) /\
  (Forall (fun o => r_option o <> "d") rs -> driver s' = driver s) /\
  (Forall (fun o => r_option o <> "P") rs -> basePort s' = basePort s) /\
  (Forall (fun o => r_option o <> "M") rs -> dbDriver s' = dbDriver s) /\
  (Forall (fun o => r_option o <> "s") rs -> penv s' = penv s).
Proof.
  revert s t. induction rs as [|o rs IH]; intros s t.
  - intros E; inversion E; subst. by repeat split.
  - rewrite option_loop_cons.
    destruct (switch o s) as [t1 [s1| |]] eqn:E1; try discriminate.
    rewrite bind_Done. destruct (option_loop rs s1) as [t2 r2] eqn:E2.
    cbn. intros E; inversion E; subst.
    destruct (IH _ _ E2) as (Ib & Il & Id & IP & IM & Is).
    destruct (switch_frame _ _ _ _ E1) as (Sb & Sl & Sd & SP & SM & Ss).
    repeat split; intros Hall; apply Forall_cons in Hall as [Ho Hrs].
    + by rewrite Ib, Sb.
    + by rewrite Il, Sl.
    + by rewrite Id, Sd.
    + by rewrite IP, SP.
    + by rewrite IM, SM.
    + by rewrite Is, Ss.
Qed.

(** The loop cut at a result: what precedes it ran to its end, the
    [switch] on it ran to its end, and what follows ran to its end. *)
Lemma option_loop_split (pre post : list getopt_result) (o : getopt_result)
    (s s' : state) (t : list event) :
  option_loop (pre ++ o :: post) s = (t, Done s') ->
  exists t0 s0 t1 s1 t2,
    option_loop pre s = (t0, Done s0) /\
    switch o s0 = (t1, Done s1) /\
    option_loop post s1 = (t2, Done s') /\
    t = (t0 ++ t1 ++ t2)%list.
Proof.
  rewrite option_loop_app.
  destruct (option_loop pre s) as [t0 [s0| |]] eqn:E0; try discriminate.
  rewrite bind_Done, option_loop_cons.
  destruct (switch o s0) as [t1 [s1| |]] eqn:E1; try discriminate.
  rewrite bind_Done. destruct (option_loop post s1) as [t2 r2] eqn:E2.
  cbn. intros E; inversion E; subst.
  exists t0, s0, t1, s1, t2. by repeat split.
Qed.

(** X1. An option changes its own variable only: after the loop, [base],
    [listen], [driver], [basePort], [dbDriver] and [process.env] are what
    they were before it unless [-b], [-l], [-d], [-P], [-M] or [-s],
    respectively, was among the results. *)
Theorem options_touch_only_their_variable (rs : list getopt_result)
    (s s' : state) (t : list event) :
  option_loop rs s = (t, Done s') ->
  (has_option "b" rs = false -> base s' = base s) /\
  (has_option "l" rs = false -> listen s' = listen s) /\
  (has_option "d" rs = false -> driver s' = driver s) /\
  (has_option "P" rs = false -> basePort s' = basePort s) /\
  (has_option "M" rs = false -> dbDriver s' = dbDriver s) /\
  (has_option "s" rs = false -> penv s' = penv s).
Proof.
  intros E. destruct (option_loop_frame _ _ _ _ E) as (Ib & Il & Id & IP & IM & Is).
  assert (forall c, has_option c rs = false ->
                    Forall (fun o => r_option o <> c) rs) as Hno.
  { intros c Hc. apply Forall_forall. intros o Ho Eo.
    unfold has_option in Hc.
    assert (existsb (fun o => String.eqb (r_option o) c) rs = true) as Hex.
    { apply existsb_exists. exists o. split; [by apply list_elem_of_In|].
      by apply String.eqb_eq. }
    congruence. }
  repeat split; intros Hc; auto.
Qed.

(** X2. The last of several [-l], [-P] or [-b] is the one that counts:
    after the loop the variable holds the argument of the last result for
    its letter. *)
Theorem last_option_wins (pre post : list getopt_result) (o : getopt_result)
    (s s' : state) (t : list event) :
  option_loop (pre ++ o :: post) s = (t, Done s') ->
  has_option (r_option o) post = false ->
  (r_option o = "l" -> listen s' = r_optarg o) /\
  (r_option o = "P" -> basePort s' = r_optarg o) /\
  (r_option o = "b" -> base s' = r_optarg o) /\
  (r_option o = "d" ->
     exists name, r_optarg o = JStr name /\ driver s' = lookup_driver H name).
Proof.
  intros E Hlast.
  destruct (option_loop_split _ _ _ _ _ _ E) as (t0 & s0 & t1 & s1 & t2 & _ & E1 & E2 & _).
  destruct (switch_sets _ _ _ _ E1) as (Sb & Sl & Sd & SP & _).
  assert (Forall (fun o' => r_option o' <> r_option o) post) as Hno.
  { apply Forall_forall. intros o' Ho' Eo'.
    unfold has_option in Hlast.
    assert (existsb (fun x => String.eqb (r_option x) (r_option o)) post = true) as Hex.
    { apply existsb_exists. exists o'. split; [by apply list_elem_of_In|].
      by apply String.eqb_eq. }
    congruence. }
  destruct (option_loop_frame _ _ _ _ E2) as (Ib & Il & Id & IP & _).
  repeat split; intros Eo; rewrite Eo in Hno.
  - by rewrite (Il Hno), Sl.
  - by rewrite (IP Hno), SP.
  - by rewrite (Ib Hno), Sb.
  - destruct (Sd Eo) as (name & Ea & Ed). exists name. by rewrite (Id Hno).
Qed.

(** X3. The two switches: after the loop the backend is ['memory'] when
    [-M] was among the results and what it was otherwise, and
    [process.env] has [STRONGLOOP_PM_SKIP_DEFAULT_INSTALL] set to ['true']
    when [-s] was among them and is untouched otherwise. *)
Theorem switches_M_and_s (rs : list getopt_result) (s s' : state) (t : list event) :
  option_loop rs s = (t, Done s') ->
  dbDriver s' = (if has_option "M" rs then "memory" else dbDriver s) /\
  penv s' = (if has_option "s" rs
             then <["STRONGLOOP_PM_SKIP_DEFAULT_INSTALL" := "true"]> (penv s)
             else penv s).
Proof.
  revert s t. induction rs as [|o rs IH]; intros s t.
  - intros E; inversion E; subst. by split.
  - rewrite option_loop_cons.
    destruct (switch o s) as [t1 [s1| |]] eqn:E1; try discriminate.
    rewrite bind_Done. destruct (option_loop rs s1) as [t2 r2] eqn:E2.
    cbn [trace outcome]. intros E; inversion E; subst.
    destruct (IH _ _ E2) as [IM Is].
    destruct (switch_frame _ _ _ _ E1) as (_ & _ & _ & _ & FM & Fs).
    destruct (switch_sets _ _ _ _ E1) as (_ & _ & _ & _ & SM & Ss).
    change (has_option "M" (o :: rs))
      with (String.eqb (r_option o) "M" || has_option "M" rs).
    change (has_option "s" (o :: rs))
      with (String.eqb (r_option o) "s" || has_option "s" rs).
    split.
    + rewrite IM. destruct (String.eqb_spec (r_option o) "M") as [Eo|Eo]; cbn [orb].
      * rewrite (SM Eo). by destruct (has_option "M" rs).
      * by rewrite (FM Eo).
    + rewrite Is. destruct (String.eqb_spec (r_option o) "s") as [Eo|Eo]; cbn [orb].
      * rewrite (Ss Eo). destruct (has_option "s" rs); [|done].
        by rewrite insert_insert_eq.
      * by rewrite (Fs Eo).
Qed.

(** *** The options kept for old job files *)

Lemma switch_legacy (o : getopt_result) (s : state) :
  is_legacy_option o = true ->
  outcome (switch o s) = Done s /\
  List.filter (fun e => negb (is_config_warning e)) (trace (switch o s)) = [].
Proof.
  unfold is_legacy_option. intros E.
  apply orb_true_iff in E as [E|E]; apply String.eqb_eq in E;
    unfold switch; rewrite E; cbn; by split.
Qed.

Lemma switch_not_legacy (o : getopt_result) (s : state) :
  is_legacy_option o = false ->
  List.filter (fun e => negb (is_config_warning e)) (trace (switch o s))
  = trace (switch o s).
Proof.
  unfold is_legacy_option. intros E. apply orb_false_iff in E as [E1 E2].
  unfold switch. by_option (r_option o); try discriminate;
    try destruct (r_optarg o); reflexivity.
Qed.

(** X4. [-c] and [-N] change nothing but the messages: the loop over the
    results without them ends as the loop over all the results does, in
    the same state or with the same exit status or exception, and writes
    what that one writes less the warnings about the config file. *)
Theorem legacy_options_change_nothing (rs : list getopt_result) (s : state) :
  let rs' := List.filter (fun o => negb (is_legacy_option o)) rs in
  outcome (option_loop rs' s) = outcome (option_loop rs s) /\
  trace (option_loop rs' s)
  = List.filter (fun e => negb (is_config_warning e)) (trace (option_loop rs s)).
Proof.
  cbn zeta. revert s. induction rs as [|o rs IH]; intros s; [by split|].
  cbn [List.filter]. destruct (is_legacy_option o) eqn:Eo; cbn [negb].
  - destruct (switch_legacy o s Eo) as [Hout Htr].
    rewrite (option_loop_cons o rs).
    destruct (switch o s) as [tw rw]. cbn in Hout, Htr. subst rw.
    rewrite bind_Done. cbn [trace outcome fst snd].
    rewrite List.filter_app, Htr. apply IH.
  - rewrite !option_loop_cons.
    pose proof (switch_not_legacy o s Eo) as Htr.
    destruct (switch o s) as [t1 [s1| |]]; cbn in Htr.
    + rewrite !bind_Done. cbn [trace outcome fst snd].
      rewrite List.filter_app, Htr. destruct (IH s1) as [-> ->]. by split.
    + by split.
    + by split.
Qed.

(** *** How the loop is left *)

(** The loop over results that let it continue, followed by more. *)
Lemma option_loop_prefix (pre rs : list getopt_result) (s : state) :
  Forall continues pre ->
  exists t s1,
    cmd s1 = cmd s /\
    Forall (fun e => is_work e = false) t /\
    option_loop (pre ++ rs) s
    = ((t ++ trace (option_loop rs s1))%list, outcome (option_loop rs s1)).
Proof.
  intros Hpre.
  destruct (option_loop_continues pre s Hpre) as (t & s1 & E & _).
  exists t, s1. split; [by apply option_loop_keeps in E as (? & _)|]. split.
  - pose proof (option_loop_messages pre s) as Hm. by rewrite E in Hm.
  - by rewrite option_loop_app, E, bind_Done.
Qed.

(** X5. [-v] and [-h], reached through results that let the loop continue,
    end the process with status 0 after one [console.log], of the version
    of the package for [-v] and of the usage text with the command's name
    for [-h]. Whatever follows them on the command line is not looked at,
    and nothing but messages is written. *)
Theorem version_and_help_exit_0 (ps : parse) (w : World) (cmd0 : string)
    (pre rest : list getopt_result) (o : getopt_result) :
  command_name = ([], Done cmd0) ->
  results ps = (pre ++ o :: rest)%list ->
  Forall continues pre ->
  (r_option o = "v" ->
     exists t, startup ps w = ((t ++ [console_log (versionPm H)])%list, Exited 0, w) /\
               Forall (fun e => is_work e = false) t) /\
  (r_option o = "h" ->
     exists t, startup ps w = ((t ++ [console_log (USAGE H cmd0)])%list, Exited 0, w) /\
               Forall (fun e => is_work e = false) t).
Proof.
  intros Ec Er Hpre.
  destruct (option_loop_prefix pre (o :: rest) (initial_state cmd0) Hpre)
    as (t & s1 & Hcmd & Hm & E).
  cbn in Hcmd.
  split; intros Eo; exists t; (split; [|exact Hm]);
    apply startup_exits; rewrite (main_eq ps cmd0 Ec);
    unfold from_line_40; rewrite Er, E, option_loop_cons;
    unfold switch; rewrite Eo, ?Hcmd; reflexivity.
Qed.

Lemma ends_with_g_error_app (t1 t : list event) :
  ends_with_g_error t -> ends_with_g_error (t1 ++ t).
Proof.
  intros (t0 & fmt & args & ->). exists (t1 ++ t0)%list, fmt, args.
  by rewrite app_assoc.
Qed.

Lemma switch_exit_cases (o : getopt_result) (s : state) (t : list event) (c : Z) :
  switch o s = (t, Exited c) ->
  (c = 0 /\ (r_option o = "v" \/ r_option o = "h") /\
   exists text, t = [console_log text]) \/
  (c = 1 /\ ends_with_g_error t).
Proof.
  unfold switch. by_option (r_option o); try destruct (r_optarg o);
    cbn; intros E; inversion E; subst.
  all: try (left; split; [reflexivity|]; split; [auto|]; eexists; reflexivity).
  all: right; split; [reflexivity|]; (exists []; do 2 eexists; reflexivity).
Qed.

Lemma option_loop_exit_cases (rs : list getopt_result) (s : state)
    (t : list event) (c : Z) :
  option_loop rs s = (t, Exited c) ->
  (c = 0 /\ (has_option "v" rs || has_option "h" rs = true) /\
   exists t0 text, t = (t0 ++ [console_log text])%list) \/
  (c = 1 /\ ends_with_g_error t).
Proof.
  revert s t. induction rs as [|o rs IH]; intros s t; [discriminate|].
  rewrite option_loop_cons.
  change (has_option "v" (o :: rs))
    with (String.eqb (r_option o) "v" || has_option "v" rs).
  change (has_option "h" (o :: rs))
    with (String.eqb (r_option o) "h" || has_option "h" rs).
  destruct (switch o s) as [t1 [s1| |]] eqn:E1; try discriminate.
  - rewrite bind_Done. destruct (option_loop rs s1) as [t2 r2] eqn:E2.
    cbn. intros E; inversion E; subst.
    destruct (IH _ _ E2) as [(-> & Hvh & t0 & text & ->) | (-> & Herr)].
    + left. split; [done|]. split.
      * apply orb_true_iff in Hvh as [-> | ->];
          rewrite ?orb_true_r; reflexivity.
      * exists (t1 ++ t0)%list, text. by rewrite app_assoc.
    + right. split; [done|]. by apply ends_with_g_error_app.
  - rewrite bind_Exited. intros E; inversion E; subst.
    destruct (switch_exit_cases _ _ _ _ E1)
      as [(-> & Hvh & text & ->) | (-> & Herr)]; [left|by right].
    split; [done|]. split; [|by exists [], text].
    destruct Hvh as [-> | ->]; cbn; rewrite ?orb_true_r; reflexivity.
Qed.

Lemma after_options_exit_cases (n : nat) (s : state) (t : list event) (c : Z) :
  after_options n s = (t, Exited c) -> c = 1 /\ ends_with_g_error t.
Proof.
  destruct (is_str (base s)) eqn:Eb.
  - destruct (base s) as [| | | |b| |] eqn:Eb'; try discriminate.
    rewrite (after_options_eq n s b Eb').
    destruct (negb _);
      [intros E; inversion E; subst; split; [done|]; (exists []; do 2 eexists; reflexivity)|].
    destruct (loose_eq_null _);
      [intros E; inversion E; subst; split; [done|]; (exists []; do 2 eexists; reflexivity)|].
    cbn zeta. destruct (gate _ _) as [tg rg] eqn:Eg.
    cbn. intros E; inversion E; subst. by apply gate_exit in Eg.
  - by rewrite after_options_throws.
Qed.

Lemma settle_2_exit_cases (w w' : World) (p : proc) (t : list event) (c : Z) :
  settle 2 w p = (t, Exited c, w') -> c = 1 /\ ends_with_g_error t.
Proof.
  cbn [settle]. unfold answer, turn.
  destruct (pend p) as [b loc|b loc d|loc|] eqn:Ep; cbn.
  - unfold memoryDb_stat_done, upgraded. rewrite !startPm_eq.
    destruct (bool_decide _); cbn; [discriminate|].
    destruct (migrate w b loc false (files w)) as [[m|] fs']; cbn;
      intros E; inversion E; subst.
    split; [done|]. (exists [upgradeDb b loc false]; do 2 eexists; reflexivity).
  - destruct (migrate w b loc d (files w)) as [[m|] fs']; cbn;
      intros E; inversion E; subst.
    split; [done|]. (exists []; do 2 eexists; reflexivity).
  - unfold sqliteDb_stat_done. rewrite !startPm_eq.
    destruct (bool_decide _); cbn; intros E; inversion E; subst.
    split; [done|]. (exists []; do 2 eexists; reflexivity).
  - discriminate.
Qed.

(** X6. The start-up ends the process with status 0 or 1 only. Status 0
    needs a [-v] or [-h] among the results and comes right after a
    [console.log]; status 1 always comes right after a diagnostic on
    [g.error]. *)
Theorem startup_exit_statuses (ps : parse) (w w' : World) (t : list event) (c : Z) :
  startup ps w = (t, Exited c, w') ->
  (c = 0 /\
   (has_option "v" (results ps) || has_option "h" (results ps) = true) /\
   exists t0 text, t = (t0 ++ [console_log text])%list) \/
  (c = 1 /\ ends_with_g_error t).
Proof.
  unfold startup, to_the_end.
  destruct (main ps) as [t1 [p| |]] eqn:Em.
  - destruct (settle 2 w p) as [[t2 r2] w2] eqn:Es.
    intros E; inversion E; subst. right.
    apply settle_2_exit_cases in Es as [-> Herr].
    split; [done|]. by apply ends_with_g_error_app.
  - intros E; inversion E; subst. clear E.
    destruct command_name_cases as [[cmd0 Ec] | Ec];
      [|unfold main in Em; rewrite Ec, bind_Uncaught in Em; discriminate].
    rewrite (main_eq ps cmd0 Ec) in Em. unfold from_line_40 in Em.
    destruct (option_loop _ _) as [t0 [s| |]] eqn:El; try discriminate.
    + rewrite bind_Done in Em. destruct (ending ps) as [n|err]; [|discriminate].
      destruct (after_options n s) as [ta ra] eqn:Ea.
      cbn in Em. inversion Em; subst.
      apply after_options_exit_cases in Ea as [-> Herr].
      right. split; [done|]. by apply ends_with_g_error_app.
    + rewrite bind_Exited in Em. inversion Em; subst.
      by apply option_loop_exit_cases in El.
  - discriminate.
Qed.

(** ** Further facts about the gate *)

(** The gate for a backend other than sqlite3. *)
Lemma run_gate_other (w : World) (s : state) (ch : bool) (b : string) :
  dbDriver s <> "sqlite3" -> base s = JStr b ->
  let sqliteDbPath := path_join H b "strong-mesh.db" in
  run_gate w s ch =
    if bool_decide (sqliteDbPath ∈ files w) then
      ([fs_stat sqliteDbPath;
        g_error
          "%s(%d) {{SQLite3}} database found at %s. Please delete thisfile if you wish to use the {{JSON}} file database."
          [JStr (cmd s); JNum (pid pr); JStr sqliteDbPath]],
       Exited 1, w)
    else (fs_stat sqliteDbPath :: startPm_events s, Done (started s ch), w).
Proof.
  intros Ed Eb sqliteDbPath. unfold run_gate, to_the_end.
  rewrite (gate_other s ch b Ed Eb). fold sqliteDbPath. cbn.
  destruct (decide (sqliteDbPath ∈ files w)) as [Hin|Hnot].
  - rewrite bool_decide_eq_false_2 by (intros Hn; by apply Hn).
    by rewrite bool_decide_eq_true_2.
  - rewrite bool_decide_eq_true_2 by done.
    by rewrite bool_decide_eq_false_2.
Qed.

(** X7. With a backend other than sqlite3 the gate looks for
    [strong-mesh.db] in the base directory and for nothing else, and never
    calls the migration; when the file is not there it goes to [startPm].
    The world is left as it was. *)
Theorem json_backend_never_migrates (w : World) (s : state) (ch : bool) (b : string) :
  dbDriver s <> "sqlite3" -> base s = JStr b ->
  let sqliteDbPath := path_join H b "strong-mesh.db" in
  let run := run_gate w s ch in
  (sqliteDbPath ∉ files w ->
     run = (fs_stat sqliteDbPath :: startPm_events s, Done (started s ch), w)) /\
  List.filter is_fs_stat (trace run.1) = [fs_stat sqliteDbPath] /\
  List.filter is_upgradeDb (trace run.1) = [] /\
  run.2 = w.
Proof.
  intros Ed Eb sqliteDbPath run. subst run.
  rewrite (run_gate_other w s ch b Ed Eb). fold sqliteDbPath.
  destruct (decide (sqliteDbPath ∈ files w)) as [Hin|Hnot].
  - rewrite bool_decide_eq_true_2 by done. by repeat split.
  - rewrite bool_decide_eq_false_2 by done. by repeat split.
Qed.

(** The four ways the gate can go, for a base directory that is a
    string. *)
Lemma run_gate_cases (w : World) (s : state) (ch : bool) (b : string) :
  base s = JStr b ->
  exists loc,
    run_gate w s ch = (fs_stat loc :: startPm_events s, Done (started s ch), w) \/
    (dbDriver s = "sqlite3" /\ exists w',
       run_gate w s ch
       = (fs_stat loc :: upgradeDb (JStr b) loc false :: startPm_events s,
          Done (started s ch), w')) \/
    (dbDriver s = "sqlite3" /\ exists fmt args w',
       run_gate w s ch
       = ([fs_stat loc; upgradeDb (JStr b) loc false; g_error fmt args],
          Exited 1, w')) \/
    (exists fmt args,
       run_gate w s ch = ([fs_stat loc; g_error fmt args], Exited 1, w)).
Proof.
  intros Eb. destruct (String.eqb_spec (dbDriver s) "sqlite3") as [Ed|Ed].
  - exists (memoryDbLocation s b).
    destruct (decide (memoryDbLocation s b ∈ files w)) as [Hin|Hnot].
    + rewrite (run_gate_legacy w s ch b Ed Eb Hin). cbn zeta.
      destruct (migrate w _ _ _ _).1 as [message|];
        [right; right; left | right; left]; split; eauto.
    + left. by apply run_gate_no_legacy.
  - exists (path_join H b "strong-mesh.db").
    rewrite (run_gate_other w s ch b Ed Eb).
    destruct (bool_decide _); [right; right; right; eauto | by left].
Qed.

(** ** The start-up as a whole *)

Lemma to_the_end_prefix (w : World) (t1 : list event) (m : Proc proc) :
  to_the_end w ((t1 ++ trace m)%list, outcome m) =
    ((t1 ++ trace (to_the_end w m).1)%list,
     outcome (to_the_end w m).1, (to_the_end w m).2).
Proof.
  destruct m as [t [p| |]]; unfold to_the_end; cbn [trace outcome fst snd];
    try reflexivity.
  destruct (settle 2 w p) as [[t' r'] w']. cbn. by rewrite app_assoc.
Qed.

(** The start-up either stops before the base directory is made, having
    written messages only, or is the option loop followed by [mkdirp],
    [process.chdir] and the gate on the variables the loop left. *)
Lemma startup_cases (ps : parse) (w : World) :
  (Forall (fun e => is_work e = false) (trace (startup ps w).1) /\
   (forall p, outcome (startup ps w).1 <> Done p) /\
   (startup ps w).2 = w) \/
  (exists cmd0 msgs s0 b0,
     command_name = ([], Done cmd0) /\
     option_loop (results ps) (initial_state cmd0) = (msgs, Done s0) /\
     ending ps = EndOfOptions (length (argv pr)) /\
     base s0 = JStr b0 /\
     loose_eq_null (listen s0) = false /\
     let b := path_resolve H b0 in
     let run := run_gate w (set_base (JStr b) s0) (connected pr) in
     startup ps w =
       ((msgs ++ mkdirp b :: process_chdir b :: trace run.1)%list,
        outcome run.1, run.2)).
Proof.
  unfold startup.
  destruct command_name_cases as [[cmd0 Ec] | Ec];
    [|left; unfold main; rewrite Ec, bind_Uncaught; cbn;
      by repeat split].
  rewrite (main_eq ps cmd0 Ec).
  pose proof (option_loop_messages (results ps) (initial_state cmd0)) as Hm.
  destruct (option_loop (results ps) (initial_state cmd0)) as [msgs [s0| |]] eqn:El;
    cbn [trace fst] in Hm.
  - rewrite (from_line_40_loop ps cmd0 msgs s0 El).
    destruct (ending ps) as [n|err] eqn:Ee; [|left; cbn; by repeat split].
    destruct (is_str (base s0)) eqn:Eb.
    + destruct (base s0) as [| | | |b0| |] eqn:Eb'; try discriminate.
      rewrite (after_options_eq n s0 b0 Eb').
      destruct (Nat.eqb_spec n (length (argv pr))) as [->|Hn]; cbn [negb].
      * destruct (loose_eq_null (listen s0)) eqn:Enull.
        -- left. cbn. repeat split; [|done].
           apply Forall_app; split; [done|by repeat constructor].
        -- right. exists cmd0, msgs, s0, b0. repeat split; try done.
           cbn zeta. unfold run_gate.
           set (g := gate _ _).
           change (mkdirp (path_resolve H b0) :: process_chdir (path_resolve H b0) :: trace g)
             with ([mkdirp (path_resolve H b0); process_chdir (path_resolve H b0)] ++ trace g)%list.
           cbn [trace outcome fst snd].
           rewrite app_assoc, to_the_end_prefix. cbn [trace outcome fst snd].
           by rewrite <- app_assoc.
      * left. cbn. repeat split; [|done].
        apply Forall_app; split; [done|by repeat constructor].
    + rewrite after_options_throws by done. left. cbn.
      rewrite app_nil_r. by repeat split.
  - left. unfold from_line_40. rewrite El, bind_Exited. cbn. by repeat split.
  - left. unfold from_line_40. rewrite El, bind_Uncaught. cbn. by repeat split.
Qed.

(** X8. When the start-up ends with the server started, what it did is,
    after the messages of the option loop: [mkdirp] and [process.chdir] on
    the resolved base directory, one [fs.stat], with the sqlite3 backend
    possibly one migration of that directory, and [startPm]; the server got
    that same directory as [baseDir] and a listen port that is not null. *)
Theorem started_server_shape (ps : parse) (w w' : World) (t : list event) (p : proc) :
  startup ps w = (t, Done p, w') ->
  exists msgs s b loc,
    Forall (fun e => is_work e = false) msgs /\
    base s = JStr b /\
    loose_eq_null (listen s) = false /\
    p = started s (connected pr) /\
    (t = (msgs ++ mkdirp b :: process_chdir b :: fs_stat loc
               :: startPm_events s)%list \/
     (dbDriver s = "sqlite3" /\
      t = (msgs ++ mkdirp b :: process_chdir b :: fs_stat loc
                :: upgradeDb (JStr b) loc false :: startPm_events s)%list)).
Proof.
  intros E. destruct (startup_cases ps w) as [(_ & Hnot & _) | Hgate].
  - rewrite E in Hnot. by destruct (Hnot p).
  - destruct Hgate as (cmd0 & msgs & s0 & b0 & _ & El & _ & Eb & Enull & Es).
    cbn zeta in Es. rewrite E in Es.
    set (b := path_resolve H b0) in *. set (s := set_base (JStr b) s0) in *.
    pose proof (option_loop_messages (results ps) (initial_state cmd0)) as Hm.
    rewrite El in Hm. cbn [trace fst] in Hm.
    destruct (run_gate_cases w s (connected pr) b eq_refl)
      as (loc & [Hr | [(Ed & w1 & Hr) | [(Ed & f & a & w1 & Hr) | (f & a & Hr)]]]);
      rewrite Hr in Es; cbn [trace outcome fst snd] in Es;
      inversion Es; subst t p; try discriminate.
    + exists msgs, s, b, loc. repeat split; try done. by left.
    + exists msgs, s, b, loc. repeat split; try done. by right.
Qed.

Lemma messages_filter (f : event -> bool) (t : list event) :
  (forall e, f e = true -> is_work e = true) ->
  Forall (fun e => is_work e = false) t ->
  List.filter f t = [].
Proof.
  intros Hf. induction 1 as [|e t He _ IH]; [reflexivity|].
  cbn. destruct (f e) eqn:Efe; [|exact IH].
  apply Hf in Efe. congruence.
Qed.

(** X9. Whatever the options and the world, one start-up makes the base
    directory at most once, looks for at most one file, calls the migration
    at most once and constructs at most one server. *)
Theorem at_most_one_of_each (ps : parse) (w : World) :
  let t := trace (startup ps w).1 in
  (length (List.filter is_mkdirp t) <= 1)%nat /\
  (length (List.filter is_fs_stat t) <= 1)%nat /\
  (length (List.filter is_upgradeDb t) <= 1)%nat /\
  (length (List.filter is_new_Server t) <= 1)%nat.
Proof.
  cbn zeta.
  assert (forall f, (forall e, f e = true -> is_work e = true) ->
            forall msgs, Forall (fun e => is_work e = false) msgs ->
            forall rest, List.filter f (msgs ++ rest) = List.filter f rest) as Hskip.
  { intros f Hf msgs Hm rest.
    by rewrite List.filter_app, (messages_filter f msgs Hf Hm). }
  assert (forall e, is_mkdirp e = true -> is_work e = true) as H1 by (by intros []).
  assert (forall e, is_fs_stat e = true -> is_work e = true) as H2 by (by intros []).
  assert (forall e, is_upgradeDb e = true -> is_work e = true) as H3 by (by intros []).
  assert (forall e, is_new_Server e = true -> is_work e = true) as H4 by (by intros []).
  destruct (startup_cases ps w) as [(Hm & _ & _) | Hgate].
  - rewrite (messages_filter _ _ H1 Hm), (messages_filter _ _ H2 Hm),
      (messages_filter _ _ H3 Hm), (messages_filter _ _ H4 Hm). cbn. lia.
  - destruct Hgate as (cmd0 & msgs & s0 & b0 & _ & El & _ & Eb & Enull & Es).
    cbn zeta in Es. rewrite Es. cbn [trace fst].
    pose proof (option_loop_messages (results ps) (initial_state cmd0)) as Hm.
    rewrite El in Hm. cbn [trace fst] in Hm.
    rewrite (Hskip _ H1 _ Hm), (Hskip _ H2 _ Hm), (Hskip _ H3 _ Hm), (Hskip _ H4 _ Hm).
    set (b := path_resolve H b0). set (s := set_base (JStr b) s0).
    destruct (run_gate_cases w s (connected pr) b eq_refl)
      as (loc & [Hr | [(Ed & w1 & Hr) | [(Ed & f & a & w1 & Hr) | (f & a & Hr)]]]);
      rewrite Hr; cbn; lia.
Qed.

(** ** Later turns and the configuration *)

(** What the first turn has done when it ends with the script waiting. *)
Lemma main_Done_inv (ps : parse) (t : list event) (p : proc) :
  main ps = (t, Done p) ->
  exists cmd0 msgs s0 b0,
    command_name = ([], Done cmd0) /\
    option_loop (results ps) (initial_state cmd0) = (msgs, Done s0) /\
    base s0 = JStr b0 /\
    loose_eq_null (listen s0) = false /\
    st p = set_base (JStr (path_resolve H b0)) s0.
Proof.
  destruct command_name_cases as [[cmd0 Ec] | Ec];
    [|unfold main; by rewrite Ec, bind_Uncaught].
  rewrite (main_eq ps cmd0 Ec).
  destruct (option_loop (results ps) (initial_state cmd0)) as [msgs [s0| |]] eqn:El.
  - rewrite (from_line_40_loop ps cmd0 msgs s0 El).
    destruct (ending ps) as [n|err]; [|discriminate].
    destruct (is_str (base s0)) eqn:Eb;
      [|by rewrite after_options_throws].
    destruct (base s0) as [| | | |b0| |] eqn:Eb'; try discriminate.
    rewrite (after_options_eq n s0 b0 Eb').
    destruct (negb _); [discriminate|].
    destruct (loose_eq_null (listen s0)) eqn:Enull; [discriminate|].
    cbn zeta. set (s1 := set_base _ s0).
    destruct (String.eqb_spec (dbDriver s1) "sqlite3") as [Ed|Ed].
    + rewrite (gate_sqlite3 s1 _ _ Ed eq_refl). cbn.
      intros E; inversion E; subst. exists cmd0, msgs, s0, b0. by repeat split.
    + rewrite (gate_other s1 _ _ Ed eq_refl). cbn.
      intros E; inversion E; subst. exists cmd0, msgs, s0, b0. by repeat split.
  - unfold from_line_40. by rewrite El, bind_Exited.
  - unfold from_line_40. by rewrite El, bind_Uncaught.
Qed.

Lemma turn_configuration (p p' : proc) (i : input) (t : list event) :
  turn p i = Some (t, Done p') ->
  configuration (st p') = configuration (st p) /\
  process_listeners (st p') = process_listeners (st p).
Proof.
  unfold turn.
  destruct i as [err|err|name port|], (pend p) as [b loc|b loc d|loc|];
    try discriminate;
    try (unfold memoryDb_stat_done, sqliteDb_stat_done, upgraded;
         rewrite ?startPm_eq; destruct err; cbn;
         intros E; inversion E; subst; by split);
    try (destruct (dispatch _ _ _ _) as [t' [[]| |]]; cbn;
         intros E; inversion E; subst; by split);
    try (destruct (channel p); [|discriminate];
         destruct (dispatch _ _ _ _) as [t' [[]| |]]; cbn;
         intros E; inversion E; subst; by split).
Qed.

(** X10. No turn after the first changes the configuration: a turn that
    does not end the process leaves the command name, [base], [listen],
    [driver], [basePort], [dbDriver], [process.env] and the listeners of
    [process] as they were. So every state the process can be in between
    two turns has the command name of line 39, a base directory that is a
    string and a listen port that is not null. *)
Theorem configuration_is_fixed (cmd0 : string) :
  command_name = ([], Done cmd0) ->
  (forall p p' i t, turn p i = Some (t, Done p') ->
     configuration (st p') = configuration (st p) /\
     process_listeners (st p') = process_listeners (st p)) /\
  (forall p, reachable p ->
     cmd (st p) = cmd0 /\
     is_str (base (st p)) = true /\
     loose_eq_null (listen (st p)) = false).
Proof.
  intros Ec. split; [intros p p' i t; apply turn_configuration|].
  induction 1 as [ps t p Hm | p i t p' _ IH Ht].
  - destruct (main_Done_inv ps t p Hm)
      as (cmd1 & msgs & s0 & b0 & Ec1 & El & Eb & Enull & Est).
    rewrite Ec in Ec1. inversion Ec1; subst cmd1.
    rewrite Est. cbn. repeat split; [|done].
    by apply option_loop_keeps in El as (? & _).
  - destruct (turn_configuration _ _ _ _ Ht) as [Hc _].
    unfold configuration in Hc. inversion Hc as [[E1 E2 E3 E4 E5 E6 E7]].
    by rewrite E1, E2, E3.
Qed.

(** ** Exceptions *)





(** ** Defaults *)


(** ** The driver registry, name by name *)

Lemma js_get_DRIVERS_other (k : string) :
  k ∉ ("direct" :: "docker" :: inherited_names) ->
  js_get DRIVERS k = JUndefined.
Proof.
  unfold inherited_names. intros Hk.
  repeat (apply not_elem_of_cons in Hk as [? Hk]).
  unfold js_get, DRIVERS, ObjectPrototype. cbn [list_to_map foldr uncurry].
  rewrite !lookup_insert_ne by done.
  rewrite lookup_singleton_ne, lookup_empty by done. reflexivity.
Qed.

(** X13. What [-d] selects depends on the lower-cased name only: the
    direct driver for [direct] and for no other name, the docker driver
    for [docker] and for no other name, and [undefined] exactly for the
    names that are neither of the two nor a property of
    [Object.prototype]. *)
Theorem lookup_driver_by_name (name : string) :
  let k := toLowerCase H name in
  (lookup_driver H name = JModule DirectDriver <-> k = "direct") /\
  (lookup_driver H name = JModule ContainerDriver <-> k = "docker") /\
  (lookup_driver H name = JUndefined <->
     k ∉ ("direct" :: "docker" :: inherited_names)).
Proof.
  cbn zeta. unfold lookup_driver. generalize (toLowerCase H name). intros k.
  destruct (decide (k ∈ ("direct" :: "docker" :: inherited_names))) as [Hin|Hnot].
  - unfold inherited_names in Hin.
    repeat (apply elem_of_cons in Hin as [-> | Hin]);
      try (by inversion Hin);
      (split; [|split]); split; try (vm_compute; congruence);
      try (intros Hk; exfalso; apply Hk; set_solver).
  - rewrite (js_get_DRIVERS_other k Hnot).
    unfold inherited_names in Hnot.
    (split; [|split]); split; try done; intros ->; exfalso; apply Hnot; set_solver.
Qed.

(** ** The environment *)

(** The loop changes one environment variable at most. *)
Lemma option_loop_env (rs : list getopt_result) (s s' : state) (t : list event)
    (k : string) :
  option_loop rs s = (t, Done s') ->
  k <> "STRONGLOOP_PM_SKIP_DEFAULT_INSTALL" ->
  penv s' !! k = penv s !! k.
Proof.
  intros E Hk. revert s t E. induction rs as [|o rs IH]; intros s t.
  - intros E; by inversion E.
  - rewrite option_loop_cons.
    destruct (switch o s) as [t1 [s1| |]] eqn:E1; try discriminate.
    rewrite bind_Done. destruct (option_loop rs s1) as [t2 r2] eqn:E2.
    cbn. intros E; inversion E; subst.
    rewrite (IH _ _ E2).
    destruct (switch_frame _ _ _ _ E1) as (_ & _ & _ & _ & _ & Fs).
    destruct (switch_sets _ _ _ _ E1) as (_ & _ & _ & _ & _ & Ss).
    destruct (String.eqb_spec (r_option o) "s") as [Eo|Eo].
    + rewrite (Ss Eo). by rewrite lookup_insert_ne.
    + by rewrite (Fs Eo).
Qed.

(** X14. Where the legacy file is looked for depends on the options
    through the base directory only: it is [STRONGLOOP_MESH_DB] as the
    process got it when that is set and not empty, and [strong-pm.json] in
    the base directory when it is unset or empty. *)
Theorem legacy_location_after_options (rs : list getopt_result) (cmd0 : string)
    (t : list event) (s : state) (b : string) :
  option_loop rs (initial_state cmd0) = (t, Done s) ->
  memoryDbLocation s b =
    match env pr !! "STRONGLOOP_MESH_DB" with
    | Some p => if String.eqb p EmptyString
                then path_join H b "strong-pm.json" else p
    | None => path_join H b "strong-pm.json"
    end.
Proof.
  intros E. unfold memoryDbLocation, env_truthy.
  rewrite (option_loop_env _ _ _ _ "STRONGLOOP_MESH_DB" E) by discriminate.
  cbn [penv initial_state].
  destruct (env pr !! "STRONGLOOP_MESH_DB") as [p|]; [|done].
  by destruct (String.eqb p EmptyString).
Qed.



End Script.

(** ** The script on concrete inputs *)

Example lower_Docker : toLowerCase posix_host "DocKER" = "docker".
Proof. reflexivity. Qed.

Example run_plain :
  (startup posix_host (sl_pm [])
     {| results := []; ending := EndOfOptions 2 |} (world [])).1
  = ([mkdirp "/root/.strong-pm"; process_chdir "/root/.strong-pm";
      fs_stat "/root/.strong-pm/strong-pm.json";
      new_Server {|
        Server.Driver := JModule DirectDriver;
        Server.baseDir := JStr "/root/.strong-pm";
        Server.basePort := JNum 3000;
        Server.cmdName := "sl-pm";
        Server.listenPort := JNum 8701;
        Server.dbDriver := "sqlite3" |};
      app_on "listening"; app_start],
     Done (started
       (set_base (JStr "/root/.strong-pm") (initial_state posix_host (sl_pm []) "sl-pm"))
       true)).
Proof. vm_compute. reflexivity. Qed.

Example run_failed_migration :
  (startup posix_host (sl_pm ["-b"; "/srv/pm"])
     {| results := [opt "b" (JStr "/srv/pm")]; ending := EndOfOptions 4 |}
     {| files := {["/srv/pm/strong-pm.json"]}; migrate := migration_fails |}).1
  = ([mkdirp "/srv/pm"; process_chdir "/srv/pm";
      fs_stat "/srv/pm/strong-pm.json";
      upgradeDb (JStr "/srv/pm") "/srv/pm/strong-pm.json" false;
      g_error "%s(%d) %s" [JStr "sl-pm"; JNum 4242; JStr "cannot read"]],
     Exited 1).
Proof. vm_compute. reflexivity. Qed.

(** ** Witnesses *)

Lemma legacy_file_is_migrated_witness :
  dbDriver in_srv_pm = "sqlite3" /\
  base in_srv_pm = JStr "/srv/pm" /\
  "/srv/pm/strong-pm.json" ∈ files (world ["/srv/pm/strong-pm.json"]) /\
  List.filter is_upgradeDb
    (trace (run_gate posix_host (sl_pm ["-b"; "/srv/pm"])
              (world ["/srv/pm/strong-pm.json"]) in_srv_pm true).1)
  = [upgradeDb (JStr "/srv/pm") "/srv/pm/strong-pm.json" false].
Proof.
  assert ("/srv/pm/strong-pm.json" ∈ files (world ["/srv/pm/strong-pm.json"])) as Hin.
  { apply (bool_decide_unpack _). vm_compute. exact I. }
  split; [reflexivity|]. split; [reflexivity|]. split; [exact Hin|].
  exact (proj1 (legacy_file_is_migrated posix_host (sl_pm ["-b"; "/srv/pm"])
                  (world ["/srv/pm/strong-pm.json"]) in_srv_pm true "/srv/pm"
                  eq_refl eq_refl Hin)).
Defined.

Lemma sqlite_file_blocks_json_backend_witness :
  dbDriver (set_dbDriver "memory" in_srv_pm) = "memory" /\
  base (set_dbDriver "memory" in_srv_pm) = JStr "/srv/pm" /\
  "/srv/pm/strong-mesh.db" ∈ files (world ["/srv/pm/strong-mesh.db"]) /\
  run_gate posix_host (sl_pm ["-M"; "-b"; "/srv/pm"])
    (world ["/srv/pm/strong-mesh.db"]) (set_dbDriver "memory" in_srv_pm) true
  = ([fs_stat "/srv/pm/strong-mesh.db";
      g_error
        "%s(%d) {{SQLite3}} database found at %s. Please delete thisfile if you wish to use the {{JSON}} file database."
        [JStr "sl-pm"; JNum 4242; JStr "/srv/pm/strong-mesh.db"]],
     Exited 1, world ["/srv/pm/strong-mesh.db"]).
Proof.
  assert ("/srv/pm/strong-mesh.db" ∈ files (world ["/srv/pm/strong-mesh.db"])) as Hin.
  { apply (bool_decide_unpack _). vm_compute. exact I. }
  split; [reflexivity|]. split; [reflexivity|]. split; [exact Hin|].
  exact (proj1 (proj2 (sqlite_file_blocks_json_backend posix_host
                  (sl_pm ["-M"; "-b"; "/srv/pm"])
                  (world ["/srv/pm/strong-mesh.db"])
                  (set_dbDriver "memory" in_srv_pm) true "/srv/pm"
                  eq_refl eq_refl Hin))).
Defined.

Lemma no_legacy_file_no_migration_witness :
  dbDriver in_srv_pm = "sqlite3" /\
  base in_srv_pm = JStr "/srv/pm" /\
  (("/srv/pm/strong-pm.json" ∉ files (world [])) /\
   run_gate posix_host (sl_pm ["-b"; "/srv/pm"]) (world []) in_srv_pm true
   = (fs_stat "/srv/pm/strong-pm.json" :: startPm_events in_srv_pm,
      Done (started in_srv_pm true), world [])) /\
  ("/srv/pm/strong-pm.json" ∈ files (world ["/srv/pm/strong-pm.json"]) /\
   migration_ok (JStr "/srv/pm") "/srv/pm/strong-pm.json" false
     (files (world ["/srv/pm/strong-pm.json"]))
   = (None, files (world ["/srv/pm/strong-pm.json"]) ∖ {["/srv/pm/strong-pm.json"]}) /\
   ("/srv/pm/strong-pm.json"
     ∉ files (world ["/srv/pm/strong-pm.json"]) ∖ {["/srv/pm/strong-pm.json"]}) /\
   let w' := (run_gate posix_host (sl_pm ["-b"; "/srv/pm"])
                (world ["/srv/pm/strong-pm.json"]) in_srv_pm true).2 in
   run_gate posix_host (sl_pm ["-b"; "/srv/pm"]) w' in_srv_pm true
   = (fs_stat "/srv/pm/strong-pm.json" :: startPm_events in_srv_pm,
      Done (started in_srv_pm true), w')).
Proof.
  assert ("/srv/pm/strong-pm.json" ∉ files (world [])) as Hnot.
  { apply (bool_decide_unpack _). vm_compute. exact I. }
  assert ("/srv/pm/strong-pm.json" ∈ files (world ["/srv/pm/strong-pm.json"])) as Hin.
  { apply (bool_decide_unpack _). vm_compute. exact I. }
  assert ("/srv/pm/strong-pm.json"
     ∉ files (world ["/srv/pm/strong-pm.json"]) ∖ {["/srv/pm/strong-pm.json"]}) as Hgone.
  { apply (bool_decide_unpack _). vm_compute. exact I. }
  split; [reflexivity|]. split; [reflexivity|]. split.
  - split; [exact Hnot|].
    exact (proj1 (proj1 (no_legacy_file_no_migration posix_host
                    (sl_pm ["-b"; "/srv/pm"]) (world []) in_srv_pm true "/srv/pm"
                    eq_refl eq_refl) Hnot)).
  - split; [exact Hin|]. split; [reflexivity|]. split; [exact Hgone|].
    exact (proj2 (proj2 (no_legacy_file_no_migration posix_host
                    (sl_pm ["-b"; "/srv/pm"]) (world ["/srv/pm/strong-pm.json"])
                    in_srv_pm true "/srv/pm" eq_refl eq_refl)
                    _ Hin eq_refl Hgone)).
Defined.

Lemma listening_logs_three_lines_witness :
  "exit" <> "listening" /\
  turn posix_host (sl_pm []) (started in_srv_pm true) (app_emits "exit" JUndefined)
  = Some ([], Done (started in_srv_pm true)).
Proof.
  assert ("exit" <> "listening") as Hn by discriminate.
  split; [exact Hn|].
  exact (proj2 (proj2 (proj2 (listening_logs_three_lines posix_host (sl_pm [])
                  in_srv_pm true JUndefined))) "exit" Hn).
Defined.

Lemma parent_loss_exits_2_witness :
  exists p : proc,
    reachable posix_host (sl_pm []) p /\
    connected (sl_pm []) = true /\
    pend p = stat_memoryDb (JStr "/root/.strong-pm") "/root/.strong-pm/strong-pm.json" /\
    turn posix_host (sl_pm []) p parent_disconnects = Some ([], Exited 2).
Proof.
  assert (main posix_host (sl_pm []) {| results := []; ending := EndOfOptions 2 |}
          = ([mkdirp "/root/.strong-pm"; process_chdir "/root/.strong-pm";
              fs_stat "/root/.strong-pm/strong-pm.json"],
             Done {| st := set_base (JStr "/root/.strong-pm")
                             (initial_state posix_host (sl_pm []) "sl-pm");
                     pend := stat_memoryDb (JStr "/root/.strong-pm")
                               "/root/.strong-pm/strong-pm.json";
                     channel := true |})) as Hm.
  { vm_compute. reflexivity. }
  eexists. split; [exact (reach_main _ _ _ _ _ Hm)|].
  split; [reflexivity|]. split; [reflexivity|].
  exact (proj1 (parent_loss_exits_2 posix_host (sl_pm [])) _
           (reach_main _ _ _ _ _ Hm) eq_refl).
Defined.

Lemma driver_lookup_ignores_case_witness :
  (toLowerCase posix_host "DOCKER" = "docker" /\
   lookup_driver posix_host "DOCKER" = JModule ContainerDriver /\
   lookup_driver posix_host "Docker" = JModule ContainerDriver /\
   lookup_driver posix_host "docker" = JModule ContainerDriver) /\
  (toLowerCase posix_host "Direct" = "direct" /\
   lookup_driver posix_host "Direct" = JModule DirectDriver).
Proof.
  refine (conj (conj eq_refl (conj _ (conj _ _))) (conj eq_refl _)).
  - exact (proj1 (proj1 (driver_lookup_ignores_case posix_host "DOCKER"
             (opt "d" (JStr "DOCKER")) in_srv_pm eq_refl eq_refl) eq_refl)).
  - exact (proj1 (proj1 (driver_lookup_ignores_case posix_host "Docker"
             (opt "d" (JStr "Docker")) in_srv_pm eq_refl eq_refl) eq_refl)).
  - exact (proj1 (proj1 (driver_lookup_ignores_case posix_host "docker"
             (opt "d" (JStr "docker")) in_srv_pm eq_refl eq_refl) eq_refl)).
  - exact (proj1 (proj2 (driver_lookup_ignores_case posix_host "Direct"
             (opt "d" (JStr "Direct")) in_srv_pm eq_refl eq_refl) eq_refl)).
Defined.

Lemma null_listen_port_is_usage_error_witness :
  let pr := sl_pm ["-l"] in
  let ps := {| results := [opt "l" JUndefined]; ending := EndOfOptions 3 |} in
  let s := set_listen JUndefined (initial_state posix_host pr "sl-pm") in
  command_name posix_host pr = ([], Done "sl-pm") /\
  option_loop posix_host (results ps) (initial_state posix_host pr "sl-pm") = ([], Done s) /\
  is_str (base s) = true /\
  loose_eq_null (listen s) = true /\
  startup posix_host pr ps (world []) = ([no_listen_msg "sl-pm"], Exited 1, world []).
Proof.
  intros pr ps s.
  split; [reflexivity|]. split; [reflexivity|]. split; [reflexivity|].
  split; [reflexivity|].
  exact (proj1 (null_listen_port_is_usage_error posix_host pr ps (world [])
                  "sl-pm" [] s 3%nat eq_refl eq_refl eq_refl eq_refl eq_refl)).
Defined.

Lemma usage_errors_exit_1_witness :
  (let pr := sl_pm ["-c"; "pm.conf"; "--bogus"] in
   let ps := {| results := [opt "c" (JStr "pm.conf"); invalid_option "bogus"];
                ending := EndOfOptions 4 |} in
   command_name posix_host pr = ([], Done "sl-pm") /\
   Forall continues [opt "c" (JStr "pm.conf")] /\
   unrecognised (invalid_option "bogus") /\
   exists t,
     startup posix_host pr ps (world [])
     = ((t ++ [near_option_msg (invalid_option "bogus") "sl-pm"])%list,
        Exited 1, world []) /\
     Forall (fun e => is_work e = false) t) /\
  (let pr := sl_pm ["-N"; "x"; "stray"] in
   let ps := {| results := [opt "N" (JStr "x")]; ending := EndOfOptions 4 |} in
   command_name posix_host pr = ([], Done "sl-pm") /\
   Forall continues (results ps) /\
   4%nat <> length (argv pr) /\
   exists t,
     startup posix_host pr ps (world [])
     = ((t ++ [extra_arguments_msg "sl-pm"])%list, Exited 1, world []) /\
     Forall (fun e => is_work e = false) t).
Proof.
  assert (Forall continues [opt "c" (JStr "pm.conf")]) as Hc.
  { constructor; [|constructor]. left. apply (bool_decide_unpack _).
    vm_compute. exact I. }
  assert (unrecognised (invalid_option "bogus")) as Hu.
  { apply (bool_decide_unpack _). vm_compute. exact I. }
  assert (Forall continues [opt "N" (JStr "x")]) as Hn.
  { constructor; [|constructor]. left. apply (bool_decide_unpack _).
    vm_compute. exact I. }
  split.
  - intros pr ps. split; [reflexivity|]. split; [exact Hc|]. split; [exact Hu|].
    exact (proj1 (usage_errors_exit_1 posix_host pr ps (world []) "sl-pm" eq_refl)
             [opt "c" (JStr "pm.conf")] (invalid_option "bogus") [] eq_refl Hc Hu).
  - intros pr ps. split; [reflexivity|]. split; [exact Hn|].
    assert (4%nat <> length (argv pr)) as Hl by discriminate.
    split; [exact Hl|].
    exact (proj2 (usage_errors_exit_1 posix_host pr ps (world []) "sl-pm" eq_refl)
             4%nat Hn eq_refl Hl).
Defined.

Lemma listen_port_is_never_null_witness :
  let pr := sl_pm ["-l"; "9000"] in
  let ps := {| results := [opt "l" (JStr "9000")]; ending := EndOfOptions 4 |} in
  let s := set_listen (JStr "9000") (initial_state posix_host pr "sl-pm") in
  (forall o, o ∈ results ps -> r_option o = "l" -> is_str (r_optarg o) = true) /\
  option_loop posix_host (results ps) (initial_state posix_host pr "sl-pm") = ([], Done s) /\
  loose_eq_null (listen s) = false.
Proof.
  intros pr ps s.
  assert (forall o, o ∈ results ps -> r_option o = "l" -> is_str (r_optarg o) = true)
    as Hl.
  { intros o Ho _. apply list_elem_of_singleton in Ho. subst o. reflexivity. }
  split; [exact Hl|]. split; [reflexivity|].
  exact (proj1 (proj1 (listen_port_is_never_null posix_host pr ps Hl)
                  "sl-pm" [] s eq_refl)).
Defined.

(** ** Where the script departs from its specification *)

(** Against C5 as the specification words it: [sl-pm -h --bogus] has an
    option the parser does not know, and exits with status 0 after printing
    the usage, since [-h] and [-v] leave the loop before the parser is
    asked for the next result. And [sl-pm stray] exits with status 1 on its
    extra argument with a diagnostic whose only argument is the command
    name. *)
Lemma help_comes_before_unknown_option :
  (let ps := {| results := [opt "h" JUndefined; invalid_option "bogus"];
                ending := EndOfOptions 2 |} in
   unrecognised (invalid_option "bogus") /\
   invalid_option "bogus" ∈ results ps /\
   startup posix_host (sl_pm ["-h"; "--bogus"]) ps (world [])
   = ([console_log "usage: sl-pm [options]"], Exited 0, world []) /\
   outcome (startup posix_host (sl_pm ["-h"; "--bogus"]) ps (world [])).1
   <> Exited 1) /\
  (let ps := {| results := []; ending := EndOfOptions 2 |} in
   startup posix_host (sl_pm ["stray"]) ps (world [])
   = ([g_error "Invalid usage (extra arguments), try `{{%s --help}}`."
         [JStr "sl-pm"]],
      Exited 1, world [])).
Proof.
  split.
  - intros ps. split; [|split; [|split]].
    + apply (bool_decide_unpack _). vm_compute. exact I.
    + cbn. set_solver.
    + vm_compute. reflexivity.
    + vm_compute. discriminate.
  - vm_compute. reflexivity.
Qed.

(** A name that is no property of [DRIVERS], own or inherited, selects
    [undefined], and [startPm] hands it to [Server] as it is. *)
Lemma lookup_driver_absent (H : Host) (name : string) (s : state) (ch : bool) :
  DRIVERS !! toLowerCase H name = None ->
  ObjectPrototype !! toLowerCase H name = None ->
  let s' := set_driver (lookup_driver H name) s in
  lookup_driver H name = JUndefined /\
  switch H (opt "d" (JStr name)) s = ([], Done s') /\
  exists o, startPm s' ch = (new_Server o :: [app_on "listening"; app_start],
                             Done (started s' ch)) /\
            Server.Driver o = JUndefined.
Proof.
  intros Hd Ho s'. assert (lookup_driver H name = JUndefined) as E.
  { unfold lookup_driver, js_get. by rewrite Hd, Ho. }
  split; [exact E|]. split; [reflexivity|].
  eexists. split; [reflexivity|]. cbn. subst s'. by rewrite E.
Qed.

(** C7. [constructor] is no key of [DRIVERS], yet [-d constructor] does not
    select [undefined]: the read reaches [Object.prototype] and yields the
    [Object] function, which [startPm] hands to [Server] as its driver. *)
Theorem driver_constructor_is_not_absent :
  DRIVERS !! toLowerCase posix_host "constructor" = None /\
  lookup_driver posix_host "constructor" = JBuiltin Object_function /\
  lookup_driver posix_host "constructor" <> JUndefined /\
  List.filter is_new_Server
    (trace (startup posix_host (sl_pm ["-d"; "constructor"])
              {| results := [opt "d" (JStr "constructor")];
                 ending := EndOfOptions 4 |} (world [])).1)
  = [new_Server {|
       Server.Driver := JBuiltin Object_function;
       Server.baseDir := JStr "/root/.strong-pm";
       Server.basePort := JNum 3000;
       Server.cmdName := "sl-pm";
       Server.listenPort := JNum 8701;
       Server.dbDriver := "sqlite3" |}].
Proof.
  split; [by vm_compute|]. split; [by vm_compute|].
  split; [by vm_compute|]. vm_compute. reflexivity.
Qed.

(** ** Witnesses of the further facts *)

Lemma options_touch_only_their_variable_witness :
  let s := initial_state posix_host (sl_pm ["-l"; "9000"]) "sl-pm" in
  let s' := set_listen (JStr "9000") s in
  option_loop posix_host [opt "l" (JStr "9000")] s = ([], Done s') /\
  has_option "b" [opt "l" (JStr "9000")] = false /\
  base s' = base s.
Proof.
  intros s s'. split; [reflexivity|]. split; [reflexivity|].
  exact (proj1 (options_touch_only_their_variable posix_host
                  [opt "l" (JStr "9000")] s s' [] eq_refl) eq_refl).
Defined.

Lemma last_option_wins_witness :
  let s := initial_state posix_host (sl_pm ["-l"; "1"; "-l"; "2"; "-N"; "x"]) "sl-pm" in
  let s' := set_listen (JStr "2") (set_listen (JStr "1") s) in
  option_loop posix_host
    ([opt "l" (JStr "1")] ++ opt "l" (JStr "2") :: [opt "N" (JStr "x")]) s
  = ([], Done s') /\
  has_option "l" [opt "N" (JStr "x")] = false /\
  listen s' = JStr "2".
Proof.
  intros s s'. split; [reflexivity|]. split; [reflexivity|].
  exact (proj1 (last_option_wins posix_host [opt "l" (JStr "1")]
                  [opt "N" (JStr "x")] (opt "l" (JStr "2")) s s' []
                  eq_refl eq_refl) eq_refl).
Defined.

Lemma switches_M_and_s_witness :
  let s := initial_state posix_host (sl_pm ["-M"; "-s"]) "sl-pm" in
  let s' := set_env "STRONGLOOP_PM_SKIP_DEFAULT_INSTALL" "true"
              (set_dbDriver "memory" s) in
  option_loop posix_host [opt "M" JUndefined; opt "s" JUndefined] s = ([], Done s') /\
  dbDriver s' = "memory".
Proof.
  intros s s'. split; [reflexivity|].
  exact (proj1 (switches_M_and_s posix_host
                  [opt "M" JUndefined; opt "s" JUndefined] s s' [] eq_refl)).
Defined.

Lemma version_and_help_exit_0_witness :
  let pr := sl_pm ["-c"; "pm.conf"; "-v"; "--bogus"] in
  let ps := {| results := [opt "c" (JStr "pm.conf"); opt "v" JUndefined;
                           invalid_option "bogus"];
               ending := EndOfOptions 5 |} in
  command_name posix_host pr = ([], Done "sl-pm") /\
  Forall continues [opt "c" (JStr "pm.conf")] /\
  exists t,
    startup posix_host pr ps (world [])
    = ((t ++ [console_log (versionPm posix_host)])%list, Exited 0, world []) /\
    Forall (fun e => is_work e = false) t.
Proof.
  intros pr ps.
  assert (Forall continues [opt "c" (JStr "pm.conf")]) as Hc.
  { constructor; [|constructor]. left. apply (bool_decide_unpack _).
    vm_compute. exact I. }
  split; [reflexivity|]. split; [exact Hc|].
  exact (proj1 (version_and_help_exit_0 posix_host pr ps (world []) "sl-pm"
                  [opt "c" (JStr "pm.conf")] [invalid_option "bogus"]
                  (opt "v" JUndefined) eq_refl eq_refl Hc) eq_refl).
Defined.

Lemma startup_exit_statuses_witness :
  let pr := sl_pm ["-b"; "/srv/pm"] in
  let ps := {| results := [opt "b" (JStr "/srv/pm")]; ending := EndOfOptions 4 |} in
  let w := {| files := {["/srv/pm/strong-pm.json"]}; migrate := migration_fails |} in
  let t := [mkdirp "/srv/pm"; process_chdir "/srv/pm";
            fs_stat "/srv/pm/strong-pm.json";
            upgradeDb (JStr "/srv/pm") "/srv/pm/strong-pm.json" false;
            g_error "%s(%d) %s" [JStr "sl-pm"; JNum 4242; JStr "cannot read"]] in
  startup posix_host pr ps w = (t, Exited 1, w) /\
  ((1 = 0 /\
    (has_option "v" (results ps) || has_option "h" (results ps) = true) /\
    exists t0 text, t = (t0 ++ [console_log text])%list) \/
   (1 = 1 /\ ends_with_g_error t)).
Proof.
  intros pr ps w t.
  assert (startup posix_host pr ps w = (t, Exited 1, w)) as E
    by (vm_compute; reflexivity).
  split; [exact E|].
  exact (startup_exit_statuses posix_host pr ps w w t 1 E).
Defined.

Lemma json_backend_never_migrates_witness :
  let s := set_dbDriver "memory" in_srv_pm in
  dbDriver s <> "sqlite3" /\
  base s = JStr "/srv/pm" /\
  ("/srv/pm/strong-mesh.db" ∉ files (world [])) /\
  run_gate posix_host (sl_pm ["-M"; "-b"; "/srv/pm"]) (world []) s true
  = (fs_stat "/srv/pm/strong-mesh.db" :: startPm_events s,
     Done (started s true), world []).
Proof.
  intros s.
  assert (dbDriver s <> "sqlite3") as Hd by discriminate.
  assert ("/srv/pm/strong-mesh.db" ∉ files (world [])) as Hnot.
  { apply (bool_decide_unpack _). vm_compute. exact I. }
  split; [exact Hd|]. split; [reflexivity|]. split; [exact Hnot|].
  exact (proj1 (json_backend_never_migrates posix_host
                  (sl_pm ["-M"; "-b"; "/srv/pm"]) (world []) s true "/srv/pm"
                  Hd eq_refl) Hnot).
Defined.

Lemma started_server_shape_witness :
  let pr := sl_pm [] in
  let ps := {| results := []; ending := EndOfOptions 2 |} in
  let s := set_base (JStr "/root/.strong-pm") (initial_state posix_host pr "sl-pm") in
  let t := mkdirp "/root/.strong-pm" :: process_chdir "/root/.strong-pm"
           :: fs_stat "/root/.strong-pm/strong-pm.json" :: startPm_events s in
  startup posix_host pr ps (world []) = (t, Done (started s true), world []) /\
  exists msgs s1 b loc,
    Forall (fun e => is_work e = false) msgs /\
    base s1 = JStr b /\
    loose_eq_null (listen s1) = false /\
    started s true = started s1 (connected pr) /\
    (t = (msgs ++ mkdirp b :: process_chdir b :: fs_stat loc
               :: startPm_events s1)%list \/
     (dbDriver s1 = "sqlite3" /\
      t = (msgs ++ mkdirp b :: process_chdir b :: fs_stat loc
                :: upgradeDb (JStr b) loc false :: startPm_events s1)%list)).
Proof.
  intros pr ps s t.
  assert (startup posix_host pr ps (world []) = (t, Done (started s true), world []))
    as E by (vm_compute; reflexivity).
  split; [exact E|].
  exact (started_server_shape posix_host pr ps (world []) (world []) t
           (started s true) E).
Defined.

Lemma configuration_is_fixed_witness :
  let pr := sl_pm [] in
  let p := {| st := set_base (JStr "/root/.strong-pm")
                      (initial_state posix_host pr "sl-pm");
              pend := stat_memoryDb (JStr "/root/.strong-pm")
                        "/root/.strong-pm/strong-pm.json";
              channel := true |} in
  command_name posix_host pr = ([], Done "sl-pm") /\
  reachable posix_host pr p /\
  cmd (st p) = "sl-pm" /\
  is_str (base (st p)) = true /\
  loose_eq_null (listen (st p)) = false.
Proof.
  intros pr p.
  assert (main posix_host pr {| results := []; ending := EndOfOptions 2 |}
          = ([mkdirp "/root/.strong-pm"; process_chdir "/root/.strong-pm";
              fs_stat "/root/.strong-pm/strong-pm.json"], Done p)) as Hm
    by (vm_compute; reflexivity).
  assert (reachable posix_host pr p) as Hr by exact (reach_main _ _ _ _ _ Hm).
  split; [reflexivity|]. split; [exact Hr|].
  exact (proj2 (configuration_is_fixed posix_host pr "sl-pm" eq_refl) p Hr).
Defined.



Lemma legacy_location_after_options_witness :
  let pr := {| argv := ["node"; "/usr/local/bin/sl-pm"; "-s"];
               env := {[ "STRONGLOOP_MESH_DB" := EmptyString ]};
               pid := 4242; connected := false |} in
  let s := set_env "STRONGLOOP_PM_SKIP_DEFAULT_INSTALL" "true"
             (initial_state posix_host pr "sl-pm") in
  option_loop posix_host [opt "s" JUndefined] (initial_state posix_host pr "sl-pm")
  = ([], Done s) /\
  memoryDbLocation posix_host s "/srv/pm" = "/srv/pm/strong-pm.json".
Proof.
  intros pr s. split; [reflexivity|].
  exact (legacy_location_after_options posix_host pr [opt "s" JUndefined]
           "sl-pm" [] s "/srv/pm" eq_refl).
Defined.


Lemma lookup_driver_by_name_witness :
  ("bogus" ∉ ("direct" :: "docker" :: inherited_names)) /\
  lookup_driver posix_host "Bogus" = JUndefined.
Proof.
  assert ("bogus" ∉ ("direct" :: "docker" :: inherited_names)) as Hnot.
  { apply (bool_decide_unpack _). vm_compute. exact I. }
  split; [exact Hnot|].
  exact (proj2 (proj2 (proj2 (lookup_driver_by_name posix_host "Bogus"))) Hnot).
Defined.
